(** * The slot router of the proxy (pkg/proxy/router.go)

    A shallow embedding of [Router]: the fixed table of slots, the two
    shared connection pools, the life-cycle flags, and the operations
    [Start], [Close], [GetSlot], [HasSwitched], [FillSlot], [fillSlot],
    [SwitchMasters], [trySwitchMaster], [dispatch] and [dispatchSlot].

    The router lock [mu] serialises the operations; the embedding is the
    sequential behaviour of one operation run to completion under that
    lock.  Go's [error] results are [option error] ([None] is [nil]); an
    index out of the array's range is a run-time panic, [Panicked]. *)

From Stdlib Require Import ZArith NArith List String Bool Lia.
From stdpp Require Import base option list gmap strings.

Local Open Scope Z_scope.

(** ** Data *)

(** Modelled from the spec: the descriptor type [models.Slot], declared in
    pkg/models, outside router.go.  The fields are
    the ones router.go reads and section 6 of the specification lists; it
    has no [switched] field, that flag is a separate argument of
    [fillSlot]. *)
Module models.

Record Slot := mkSlot {
  Id : Z;
  Locked : bool;
  BackendAddr : string;
  BackendAddrGroupId : Z;
  MigrateFrom : string;
  MigrateFromGroupId : Z;
  ReplicaGroups : list (list string)
}.

End models.

(** The two pools of [Router.pool]. *)
Inductive role := primary | replica.

(** A [*sharedBackendConn] that is not nil: the pool that owns it and the
    address it was retained for.  A nil pointer is [None]. *)
Record sharedBackendConn := mkConn { owner : role; addr : string }.

(** A request, as far as [dispatch] looks at it. *)
Record Request := mkRequest { OpStr : string; Multi : list (list Byte.byte) }.

(** The errors of router.go, and the two error kinds of section 7 of the
    specification that the slot and hashing layers would report. *)
Inductive error :=
| ErrClosedRouter
| ErrInvalidSlotId
| SlotNotReady
| CrossShardRequest.

(** The [backend] and [migrate] fields of a slot: [struct { id int; bc
    *sharedBackendConn }]. *)
Record target := mkTarget { gid : Z; bc : option sharedBackendConn }.

Definition noTarget : target := {| gid := 0; bc := None |}.

(** The per-slot state.  [hold] is [lock.hold]; the in-flight counter that
    [blockAndWait] waits on is always drained between two operations of
    the sequential model and is left out. *)
Record Slot := mkSlotState {
  id : Z;
  hold : bool;
  switched : bool;
  backend : target;
  migrate : target;
  replicaGroups : list (list sharedBackendConn)
}.

(** What the router does to the connection layer, in order.  This history
    is ghost state: it lets a statement say that an operation retained,
    released or pushed nothing. *)
Inductive event :=
| EvRetain (p : role) (a : string)
| EvRelease (p : role) (a : string)
| EvMigrateCheck (c : sharedBackendConn) (hkey : list Byte.byte)
| EvPushBack (c : sharedBackendConn) (r : Request).

(** [Router].  Each pool is its table of reference counts by address; the
    [config] pointer is only handed through to [Retain] and is left out. *)
Record Router := mkRouter {
  pool_primary : gmap string nat;
  pool_replica : gmap string nat;
  slots : list Slot;
  online : bool;
  closed : bool;
  events : list event
}.

(** ** A state monad with panics *)

Inductive outcome (A : Type) :=
| Done (a : A) (s : Router)
| Panicked.
Arguments Done {A} a s.
Arguments Panicked {A}.

Definition M (A : Type) := Router -> outcome A.

Definition ret {A} (a : A) : M A := fun s => Done a s.

Definition bind {A B} (c : M A) (k : A -> M B) : M B :=
  fun s => match c s with
           | Done a s' => k a s'
           | Panicked => Panicked
           end.

Definition get : M Router := fun s => Done s s.
Definition modify (f : Router -> Router) : M unit := fun s => Done tt (f s).

Declare Scope router_scope.
Delimit Scope router_scope with router.
Notation "x <- c ;; k" := (bind c (fun x => k))
  (at level 100, c at next level, right associativity) : router_scope.
Notation "c ;;; k" := (bind c (fun _ => k))
  (at level 100, right associativity) : router_scope.
Local Open Scope router_scope.

Fixpoint forM_ {A} (l : list A) (f : A -> M unit) : M unit :=
  match l with
  | [] => ret tt
  | x :: l' => f x ;;; forM_ l' f
  end.

(** ** Setters *)

Definition set_slots (f : list Slot -> list Slot) (s : Router) : Router :=
  mkRouter (pool_primary s) (pool_replica s) (f (slots s)) (online s) (closed s) (events s).
Definition set_online (b : bool) (s : Router) : Router :=
  mkRouter (pool_primary s) (pool_replica s) (slots s) b (closed s) (events s).
Definition set_closed (b : bool) (s : Router) : Router :=
  mkRouter (pool_primary s) (pool_replica s) (slots s) (online s) b (events s).
Definition set_pool (p : role) (f : gmap string nat -> gmap string nat) (s : Router) : Router :=
  match p with
  | primary => mkRouter (f (pool_primary s)) (pool_replica s) (slots s) (online s) (closed s) (events s)
  | replica => mkRouter (pool_primary s) (f (pool_replica s)) (slots s) (online s) (closed s) (events s)
  end.
Definition record (e : event) (s : Router) : Router :=
  mkRouter (pool_primary s) (pool_replica s) (slots s) (online s) (closed s) (events s ++ [e]).

Definition set_hold (b : bool) (x : Slot) : Slot :=
  mkSlotState (id x) b (switched x) (backend x) (migrate x) (replicaGroups x).
Definition set_switched (b : bool) (x : Slot) : Slot :=
  mkSlotState (id x) (hold x) b (backend x) (migrate x) (replicaGroups x).
Definition set_backend (t : target) (x : Slot) : Slot :=
  mkSlotState (id x) (hold x) (switched x) t (migrate x) (replicaGroups x).
Definition set_migrate (t : target) (x : Slot) : Slot :=
  mkSlotState (id x) (hold x) (switched x) (backend x) t (replicaGroups x).
Definition set_replicaGroups (g : list (list sharedBackendConn)) (x : Slot) : Slot :=
  mkSlotState (id x) (hold x) (switched x) (backend x) (migrate x) g.

(** ** The connection pools *)

(** Modelled from the spec: [sharedBackendConnPool.Retain], declared
    outside router.go.  Section 3: "Retain(addr) increments/creates". *)
Definition pool_retain (a : string) (p : gmap string nat) : gmap string nat :=
  <[a := S (default 0%nat (p !! a))]> p.

(** Modelled from the spec: [sharedBackendConn.Release], declared outside
    router.go.  Sections 3 and 4.1: it decrements the count and drops the
    connection on reaching zero; an unknown connection is a no-op. *)
Definition pool_release (a : string) (p : gmap string nat) : gmap string nat :=
  match p !! a with
  | Some (S (S n)) => <[a := S n]> p
  | Some _ => delete a p
  | None => p
  end.

Definition Retain (p : role) (a : string) : M sharedBackendConn :=
  modify (set_pool p (pool_retain a)) ;;;
  modify (record (EvRetain p a)) ;;;
  ret (mkConn p a).

(** [Release] on a nil connection does nothing: router.go calls it on the
    nil [bc] of a slot that was never filled. *)
Definition Release (c : option sharedBackendConn) : M unit :=
  match c with
  | None => ret tt
  | Some c =>
      modify (set_pool (owner c) (pool_release (addr c))) ;;;
      modify (record (EvRelease (owner c) (addr c)))
  end.

(** Modelled from the spec: [sharedBackendConn.Addr], declared outside
    router.go; the address of a nil connection is the empty string, the
    "optional" address of section 6. *)
Definition Addr (c : option sharedBackendConn) : string :=
  match c with
  | None => ""
  | Some c => addr c
  end.

(** ** The slot layer (declared in pkg/proxy, outside router.go) *)

(** Modelled from the spec: [Slot.blockAndWait], section 4.2: "sets the
    gate to block new forward calls and waits for all requests already
    admitted". *)
Definition blockAndWait (x : Slot) : Slot := set_hold true x.

(** Modelled from the spec: [Slot.unblock], section 4.2: "clears the
    gate". *)
Definition unblock (x : Slot) : Slot := set_hold false x.

(** Modelled from the spec: [Slot.snapshot], section 4.2: the descriptor
    of the slot's current backend and migrate addresses and group ids,
    with the replica groups when [full] is set. *)
Definition snapshot (x : Slot) (full : bool) : models.Slot :=
  {| models.Id := id x;
     models.Locked := hold x;
     models.BackendAddr := Addr (bc (backend x));
     models.BackendAddrGroupId := gid (backend x);
     models.MigrateFrom := Addr (bc (migrate x));
     models.MigrateFromGroupId := gid (migrate x);
     models.ReplicaGroups := if full then map (map addr) (replicaGroups x) else [] |}.

Definition nonempty {A} (l : list A) : bool :=
  match l with [] => false | _ => true end.

Definition is_set (a : string) : bool :=
  match a with EmptyString => false | _ => true end.

(** Modelled from the spec: [Slot.forward], section 4.2.  It "fails
    immediately with a slot blocked / not ready condition if the gate is
    held or no backend connection is assigned"; with a migration source
    and a hash key it first issues the is-migrated check; then the request
    is pushed onto the backend connection. *)
Definition forward (x : Slot) (r : Request) (hkey : list Byte.byte) : M (option error) :=
  if hold x then ret (Some SlotNotReady)
  else match bc (backend x) with
       | None => ret (Some SlotNotReady)
       | Some b =>
           match bc (migrate x) with
           | Some from =>
               if nonempty hkey then modify (record (EvMigrateCheck from hkey)) else ret tt
           | None => ret tt
           end ;;;
           modify (record (EvPushBack b r)) ;;;
           ret None
       end.

(** ** The router (pkg/proxy/router.go) *)

Section RouterOps.

(** [MaxSlotNum] is [models.MaxSlotNum], a constant declared in
    pkg/models; [Hash] and [getHashKey] are the hashing helpers of
    pkg/proxy that [dispatch] calls.  All three are declared outside
    router.go: they are parameters of the development. *)
Variable MaxSlotNum : nat.
Variable Hash : list Byte.byte -> N.
Variable getHashKey : list (list Byte.byte) -> string -> list Byte.byte.

Definition emptySlot (i : nat) : Slot :=
  mkSlotState (Z.of_nat i) false false noTarget noTarget [].

(** [NewRouter]: two empty pools, and [slots[i].id = i]. *)
Definition NewRouter : Router :=
  mkRouter ∅ ∅ (map emptySlot (seq 0 MaxSlotNum)) false false [].

(** [&s.slots[i]], read: Go panics when [i] is outside the array. *)
Definition slotRef (i : Z) : M Slot :=
  fun s => if (i <? 0) then Panicked
           else match slots s !! Z.to_nat i with
                | Some x => Done x s
                | None => Panicked
                end.

(** Writing through the pointer [&s.slots[i]]. *)
Definition storeSlot (i : Z) (x : Slot) : M unit :=
  modify (set_slots (fun l => <[Z.to_nat i := x]> l)).

(** [for i := range s.slots]. *)
Definition slotRange (s : Router) : list Z :=
  map Z.of_nat (seq 0 (length (slots s))).

Definition Start : M unit :=
  s <- get ;;
  if closed s then ret tt
  else modify (set_online true).

Definition isOnline (s : Router) : bool := online s && negb (closed s).

(** The inner loop of lines 181-185: release every replica connection. *)
Definition releaseGroups (g : list (list sharedBackendConn)) : M unit :=
  forM_ g (fun group => forM_ group (fun c => Release (Some c))).

(** Lines 199-202: [group = append(group, s.pool.replica.Retain(addr))]. *)
Fixpoint retainGroup (addrs : list string) (group : list sharedBackendConn)
  : M (list sharedBackendConn) :=
  match addrs with
  | [] => ret group
  | a :: addrs' => c <- Retain replica a ;; retainGroup addrs' (group ++ [c])
  end.

(** Lines 198-207: an empty group is skipped. *)
Fixpoint retainGroups (groups : list (list string)) (x : Slot) : M Slot :=
  match groups with
  | [] => ret x
  | addrs :: groups' =>
      group <- retainGroup addrs [] ;;
      if nonempty group
      then retainGroups groups' (set_replicaGroups (replicaGroups x ++ [group]) x)
      else retainGroups groups' x
  end.

(** Lines 175-207 of [fillSlot], on the slot [x] that [slot] points to:
    release what the slot holds, then retain what the descriptor names. *)
Definition refill (x : Slot) (m : models.Slot) (switched : bool) : M Slot :=
  Release (bc (backend x)) ;;;
  let x := set_backend noTarget x in
  Release (bc (migrate x)) ;;;
  let x := set_migrate noTarget x in
  releaseGroups (replicaGroups x) ;;;
  let x := set_replicaGroups [] x in
  let x := set_switched switched x in
  x <- (let a := models.BackendAddr m in
        if is_set a
        then c <- Retain primary a ;;
             ret (set_backend (mkTarget (models.BackendAddrGroupId m) (Some c)) x)
        else ret x) ;;
  x <- (let from := models.MigrateFrom m in
        if is_set from
        then c <- Retain primary from ;;
             ret (set_migrate (mkTarget (models.MigrateFromGroupId m) (Some c)) x)
        else ret x) ;;
  retainGroups (models.ReplicaGroups m) x.

(** [fillSlot].  [slot] is a pointer into the table: the model carries the
    slot's value through the body and stores it back at the end, which is
    the same because [Retain] and [Release] touch the pools only.  The
    logging of lines 212-220 has no effect on the router. *)
Definition fillSlot (m : models.Slot) (switched : bool) : M unit :=
  slot <- slotRef (models.Id m) ;;
  let slot := blockAndWait slot in
  slot <- refill slot m switched ;;
  let slot := if negb (models.Locked m) then unblock slot else slot in
  storeSlot (models.Id m) slot.

Definition emptyDescriptor (i : Z) : models.Slot :=
  models.mkSlot i false "" 0 "" 0 [].

Definition Close : M unit :=
  s <- get ;;
  if closed s then ret tt
  else
    modify (set_closed true) ;;;
    forM_ (slotRange s) (fun i => fillSlot (emptyDescriptor i) false).

Definition GetSlot (i : Z) : M (option models.Slot) :=
  if (i <? 0) || (i >=? Z.of_nat MaxSlotNum) then ret None
  else slot <- slotRef i ;; ret (Some (snapshot slot true)).

Definition HasSwitched : M bool :=
  s <- get ;; ret (existsb switched (slots s)).

Definition FillSlot (m : models.Slot) : M (option error) :=
  s <- get ;;
  if closed s then ret (Some ErrClosedRouter)
  else if (models.Id m <? 0) || (models.Id m >=? Z.of_nat MaxSlotNum)
  then ret (Some ErrInvalidSlotId)
  else fillSlot m false ;;; ret None.

Definition dispatch (r : Request) : M (option error) :=
  let hkey := getHashKey (Multi r) (OpStr r) in
  let i := (Hash hkey mod N.of_nat MaxSlotNum)%N in
  slot <- slotRef (Z.of_N i) ;;
  forward slot r hkey.

Definition dispatchSlot (r : Request) (i : Z) : M (option error) :=
  if (i <? 0) || (i >=? Z.of_nat MaxSlotNum) then ret (Some ErrInvalidSlotId)
  else slot <- slotRef i ;; forward slot r [].

(** [masters[g]]: a Go map gives the empty string for a missing key. *)
Definition master (masters : gmap Z string) (g : Z) : string :=
  default "" (masters !! g).

Definition with_BackendAddr (a : string) (m : models.Slot) : models.Slot :=
  models.mkSlot (models.Id m) (models.Locked m) a (models.BackendAddrGroupId m)
    (models.MigrateFrom m) (models.MigrateFromGroupId m) (models.ReplicaGroups m).
Definition with_MigrateFrom (a : string) (m : models.Slot) : models.Slot :=
  models.mkSlot (models.Id m) (models.Locked m) (models.BackendAddr m)
    (models.BackendAddrGroupId m) a (models.MigrateFromGroupId m) (models.ReplicaGroups m).

(** Lines 236-250 of [trySwitchMaster]: the descriptor to apply and the
    [update] flag. *)
Definition switchPlan (masters : gmap Z string) (m : models.Slot) : models.Slot * bool :=
  let update := false in
  let '(m, update) :=
    let a := master masters (models.BackendAddrGroupId m) in
    if is_set a
    then if negb (String.eqb a (models.BackendAddr m))
         then (with_BackendAddr a m, true) else (m, update)
    else (m, update) in
  let '(m, update) :=
    let from := master masters (models.MigrateFromGroupId m) in
    if is_set from
    then if negb (String.eqb from (models.MigrateFrom m))
         then (with_MigrateFrom from m, true) else (m, update)
    else (m, update) in
  (m, update).

Definition trySwitchMaster (i : Z) (masters : gmap Z string) : M unit :=
  slot <- slotRef i ;;
  let '(m, update) := switchPlan masters (snapshot slot false) in
  if negb update then ret tt
  else fillSlot m true.

Definition SwitchMasters (masters : gmap Z string) : M (option error) :=
  s <- get ;;
  if closed s then ret (Some ErrClosedRouter)
  else forM_ (slotRange s) (fun i => trySwitchMaster i masters) ;;; ret None.

(** ** The other read accessors *)

(** [groups[gid] = true], under the guard [gid != 0] of lines 67 and 70. *)
Definition addGroup (g : Z) (groups : gmap Z bool) : gmap Z bool :=
  if g =? 0 then groups else <[g := true]> groups.

(** [GetGroupIds]: the map is used as a set; every value it holds is
    [true]. *)
Definition GetGroupIds : M (gmap Z bool) :=
  s <- get ;;
  ret (fold_left (fun groups x => addGroup (gid (migrate x)) (addGroup (gid (backend x)) groups))
                 (slots s) ∅).

(** The loop of [GetSlots]: [slots[i] = s.slots[i].snapshot(true)], a
    panic when [i] is outside either array. *)
Fixpoint collectSlots (range : list nat) (table : list Slot)
    (out : list (option models.Slot)) : option (list (option models.Slot)) :=
  match range with
  | [] => Some out
  | i :: range' =>
      match table !! i with
      | Some x =>
          if decide (i < length out)%nat
          then collectSlots range' table (<[i := Some (snapshot x true)]> out)
          else None
      | None => None
      end
  end.

(** [GetSlots]: [make([]*models.Slot, MaxSlotNum)] is [MaxSlotNum] nil
    pointers. *)
Definition GetSlots : M (list (option models.Slot)) :=
  fun s => match collectSlots (seq 0 (length (slots s))) (slots s)
                   (replicate MaxSlotNum None) with
           | Some out => Done out s
           | None => Panicked
           end.

(** ** Histories of operations *)

Inductive op :=
| OpStart
| OpClose
| OpFillSlot (m : models.Slot)
| OpSwitchMasters (masters : gmap Z string)
| OpDispatch (r : Request).

Definition run_op (o : op) : M unit :=
  match o with
  | OpStart => Start
  | OpClose => Close
  | OpFillSlot m => FillSlot m ;;; ret tt
  | OpSwitchMasters masters => SwitchMasters masters ;;; ret tt
  | OpDispatch r => dispatch r ;;; ret tt
  end.

Fixpoint run (ops : list op) : M unit :=
  match ops with
  | [] => ret tt
  | o :: ops' => run_op o ;;; run ops'
  end.

(** The states a router goes through: [NewRouter] followed by any
    sequence of operations. *)
Definition reachable (s : Router) : Prop :=
  exists ops, run ops NewRouter = Done tt s.

(** [t] is a state of the router [s] after further operations. *)
Definition later (s t : Router) : Prop :=
  exists ops, run ops s = Done tt t.

(** ** The vocabulary of the statements *)

(** [frame s s']: [s'] differs from [s] in the pools and the history
    only. *)
Definition frame (s s' : Router) : Prop :=
  slots s' = slots s /\ online s' = online s /\ closed s' = closed s.

(** The replica groups a descriptor installs: one connection per address,
    the empty groups left out. *)
Definition installedGroups (groups : list (list string)) : list (list sharedBackendConn) :=
  List.filter nonempty (map (map (mkConn replica)) groups).

(** The [backend] or [migrate] field a descriptor installs. *)
Definition installedTarget (a : string) (g : Z) : target :=
  if is_set a then mkTarget g (Some (mkConn primary a)) else noTarget.

(** The slot [refill] leaves behind. *)
Definition refilled (x : Slot) (m : models.Slot) (sw : bool) : Slot :=
  mkSlotState (id x) (hold x) sw
    (installedTarget (models.BackendAddr m) (models.BackendAddrGroupId m))
    (installedTarget (models.MigrateFrom m) (models.MigrateFromGroupId m))
    (installedGroups (models.ReplicaGroups m)).

(** The slot [fillSlot] leaves in the table. *)
Definition filled (x : Slot) (m : models.Slot) (sw : bool) : Slot :=
  let y := refilled (blockAndWait x) m sw in
  if negb (models.Locked m) then unblock y else y.

(** A [backend] or [migrate] field is either [nil] with group id 0, or a
    connection retained for an address that is not empty. *)
Definition target_ok (t : target) : Prop :=
  match bc t with
  | None => gid t = 0
  | Some c => is_set (addr c) = true
  end.

(** The slot at index [i] carries the id [i], and both its fields are
    in order. *)
Definition slot_ok (i : nat) (x : Slot) : Prop :=
  id x = Z.of_nat i /\ target_ok (backend x) /\ target_ok (migrate x).

(** The table has [MaxSlotNum] entries, the [i]-th carries the id [i]. *)
Definition wf (s : Router) : Prop :=
  length (slots s) = MaxSlotNum /\
  forall (i : nat) x, slots s !! i = Some x -> slot_ok i x.

(** The slot a hash key selects: [Hash(hkey) % MaxSlotNum]. *)
Definition slotOf (hkey : list Byte.byte) : nat :=
  N.to_nat (Hash hkey mod N.of_nat MaxSlotNum).

(** What [trySwitchMaster] leaves in the table for a slot [x]. *)
Definition switchedSlot (masters : gmap Z string) (x : Slot) : Slot :=
  let '(m, update) := switchPlan masters (snapshot x false) in
  if update then filled x m true else x.

(** [trySwitchMaster] finds nothing to update in [x]. *)
Definition stable (masters : gmap Z string) (x : Slot) : Prop :=
  (switchPlan masters (snapshot x false)).2 = false.

(** The address [trySwitchMaster] plans for a field with group id [g] and
    address [a], and whether that is an update. *)
Definition newAddr (masters : gmap Z string) (g : Z) (a : string) : string :=
  if is_set (master masters g) then master masters g else a.

(** [masters] names a master for group [g] that is not [a]. *)
Definition changed (masters : gmap Z string) (g : Z) (a : string) : bool :=
  is_set (master masters g) && negb (String.eqb (master masters g) a).

(** Every slot of a closed router is the empty slot. *)
Definition drained (s : Router) : Prop :=
  closed s = true -> slots s = map emptySlot (seq 0 MaxSlotNum).

(** The [PushBack] calls of a history, in order. *)
Definition pushes (l : list event) : list (sharedBackendConn * Request) :=
  flat_map (fun e => match e with EvPushBack c r => [(c, r)] | _ => [] end) l.

(** No backend, no migration source, no replica groups. *)
Definition isEmpty (x : Slot) : Prop :=
  bc (backend x) = None /\ bc (migrate x) = None /\ replicaGroups x = [].

(** A slot with a migration source has a backend. *)
Definition paired (x : Slot) : Prop :=
  bc (migrate x) <> None -> bc (backend x) <> None.

(** A descriptor that names a migration source names a backend. *)
Definition names_backend (m : models.Slot) : Prop :=
  is_set (models.MigrateFrom m) = true -> is_set (models.BackendAddr m) = true.

(** The same, for the descriptor of a [FillSlot] operation. *)
Definition op_names_backend (o : op) : Prop :=
  match o with
  | OpFillSlot m => names_backend m
  | _ => True
  end.

(** The snapshot [v] repeats the addresses and group ids of the
    descriptor [m] exactly. *)
Definition same_targets (v m : models.Slot) : Prop :=
  models.BackendAddr v = models.BackendAddr m /\
  models.BackendAddrGroupId v = models.BackendAddrGroupId m /\
  models.MigrateFrom v = models.MigrateFrom m /\
  models.MigrateFromGroupId v = models.MigrateFromGroupId m /\
  models.ReplicaGroups v = models.ReplicaGroups m.

(** Modelled from the spec: [Request.RoutingKeys] of section 6, the "key
    set (single key or multiple keys for multi-key operations)" of a
    request, declared outside router.go: the arguments that follow the
    operation name in [Multi]. *)
Definition routingKeys (r : Request) : list (list Byte.byte) := tl (Multi r).

(** The routing keys of [r] hash to more than one slot. *)
Definition crossSlot (r : Request) : Prop :=
  exists k1 k2, k1 ∈ routingKeys r /\ k2 ∈ routingKeys r /\ slotOf k1 <> slotOf k2.

(** ** Reference counts *)

(** The pool that owns the connections of a role. *)
Definition pool_of (p : role) (s : Router) : gmap string nat :=
  match p with
  | primary => pool_primary s
  | replica => pool_replica s
  end.

(** The reference count the owning pool keeps for [c]; 0 when the pool
    has no entry for its address. *)
Definition refcount (s : Router) (c : sharedBackendConn) : nat :=
  default 0%nat (pool_of (owner c) s !! addr c).

Definition conn_eq_dec (c d : sharedBackendConn) : {c = d} + {c <> d}.
Proof.
  decide equality; [apply String.string_dec | decide equality].
Defined.

(** How many times [c] occurs in [l]. *)
Definition occ (c : sharedBackendConn) (l : list sharedBackendConn) : nat :=
  count_occ conn_eq_dec l c.

Definition conn_of (o : option sharedBackendConn) : list sharedBackendConn :=
  match o with
  | Some c => [c]
  | None => []
  end.

(** The connections a slot holds: backend, migration source, replicas. *)
Definition slotConns (x : Slot) : list sharedBackendConn :=
  conn_of (bc (backend x)) ++ conn_of (bc (migrate x)) ++ concat (replicaGroups x).

(** The connections the whole table holds, with multiplicity. *)
Definition held (s : Router) : list sharedBackendConn :=
  flat_map slotConns (slots s).

(** No pool keeps an entry with count 0. *)
Definition no_zero (s : Router) : Prop :=
  forall p a, pool_of p s !! a <> Some 0%nat.

(** Every reference count is the number of places of the table that hold
    the connection. *)
Definition counted (s : Router) : Prop :=
  no_zero s /\ forall c, refcount s c = occ c (held s).

(** [c] returns, releases the connections [l] and touches nothing else,
    whenever each of them is referenced often enough. *)
Definition releases (c : M unit) (l : list sharedBackendConn) : Prop :=
  forall s, no_zero s -> (forall d, (occ d l <= refcount s d)%nat) ->
    exists s', c s = Done tt s' /\ frame s s' /\ no_zero s' /\
               forall d, (refcount s' d + occ d l)%nat = refcount s d.

(** [c] returns [a], retains the connections [l] and touches nothing
    else. *)
Definition retains {A} (c : M A) (a : A) (l : list sharedBackendConn) : Prop :=
  forall s, no_zero s ->
    exists s', c s = Done a s' /\ frame s s' /\ no_zero s' /\
               forall d, refcount s' d = (refcount s d + occ d l)%nat.

(** [c] pushes no request: the [PushBack] calls of the history are the
    same before and after. *)
Definition quiet {A} (c : M A) : Prop :=
  forall s a s', c s = Done a s' -> pushes (events s') = pushes (events s).

(** The step of the loop of [GetGroupIds]. *)
Definition addGroups (groups : gmap Z bool) (x : Slot) : gmap Z bool :=
  addGroup (gid (migrate x)) (addGroup (gid (backend x)) groups).

(** [c] appends exactly the events [l] to the history. *)
Definition traces {A} (c : M A) (l : list event) : Prop :=
  forall s a s', c s = Done a s' -> events s' = events s ++ l.

Definition evRelease (c : sharedBackendConn) : event := EvRelease (owner c) (addr c).
Definition evRetain (c : sharedBackendConn) : event := EvRetain (owner c) (addr c).

(** ** Histories, by the operations they contain *)

Definition isStart (o : op) : bool :=
  match o with OpStart => true | _ => false end.

Definition isClose (o : op) : bool :=
  match o with OpClose => true | _ => false end.

End RouterOps.

(** ** An instance of the parameters *)

(** To run the model on concrete requests: the hash of a key is its
    length, and the hash key of a request is its first argument. *)
Definition exampleHash (k : list Byte.byte) : N := N.of_nat (length k).

Definition exampleGetHashKey (multi : list (list Byte.byte)) (_ : string)
  : list Byte.byte := nth 1 multi [].

(** [MGET a bb]: with two slots, [a] hashes to slot 1 and [bb] to slot 0. *)
Definition exampleMGet : Request :=
  mkRequest "MGET" [[Byte.x4d; Byte.x47; Byte.x45; Byte.x54];
                    [Byte.x61]; [Byte.x62; Byte.x62]].

(** A descriptor for slot [i] with a backend and nothing else. *)
Definition exampleBackend (i : Z) : models.Slot :=
  models.mkSlot i false "10.0.0.1:6379" 1 "" 0 [].

(** The state the router is in after the operations [ops]. *)
Definition exampleAfter (ops : list op) : Router :=
  match run 2 exampleHash exampleGetHashKey ops (NewRouter 2) with
  | Done _ s => s
  | Panicked => NewRouter 2
  end.

(** Slot 1 migrating from a second address, with one replica group. *)
Definition exampleMigrating : models.Slot :=
  models.mkSlot 1 false "10.0.0.1:6379" 1 "10.0.0.2:6379" 2 [["10.0.0.4:6379"]; []].

Definition exampleHistory : list op :=
  [OpStart; OpFillSlot (exampleBackend 0); OpFillSlot exampleMigrating].

Definition exampleMasters : gmap Z string := {[ 1 := "10.0.0.9:6379"%string ]}.

(** * Properties *)

Section RouterFacts.

Variable MaxSlotNum : nat.
Variable Hash : list Byte.byte -> N.
Variable getHashKey : list (list Byte.byte) -> string -> list Byte.byte.

Local Abbreviation NewRouter := (NewRouter MaxSlotNum).
Local Abbreviation GetSlot := (GetSlot MaxSlotNum).
Local Abbreviation FillSlot := (FillSlot MaxSlotNum).
Local Abbreviation dispatch := (dispatch MaxSlotNum Hash getHashKey).
Local Abbreviation run_op := (run_op MaxSlotNum Hash getHashKey).
Local Abbreviation run := (run MaxSlotNum Hash getHashKey).
Local Abbreviation reachable := (reachable MaxSlotNum Hash getHashKey).
Local Abbreviation later := (later MaxSlotNum Hash getHashKey).
Local Abbreviation wf := (wf MaxSlotNum).
Local Abbreviation drained := (drained MaxSlotNum).
Local Abbreviation slotOf := (slotOf MaxSlotNum Hash).
Local Abbreviation crossSlot := (crossSlot MaxSlotNum Hash).

(** ** The pools leave the table and the flags alone *)

Lemma frame_refl s : frame s s.
Proof. by repeat split. Qed.

Lemma frame_trans s1 s2 s3 : frame s1 s2 -> frame s2 s3 -> frame s1 s3.
Proof. unfold frame. intros (?&?&?) (?&?&?). repeat split; congruence. Qed.

Lemma Retain_frame p a s :
  exists s', Retain p a s = Done (mkConn p a) s' /\ frame s s'.
Proof. eexists. split; [reflexivity|]. by destruct p. Qed.

Lemma Release_frame c s :
  exists s', Release c s = Done tt s' /\ frame s s'.
Proof.
  destruct c as [[p a]|]; (eexists; split; [reflexivity|]).
  - by destruct p.
  - apply frame_refl.
Qed.

Lemma bind_Done {A B} (c : M A) (k : A -> M B) s a s' :
  c s = Done a s' -> bind c k s = k a s'.
Proof. unfold bind. by intros ->. Qed.

Lemma forM__frame {A} (l : list A) (f : A -> M unit) :
  (forall a s, exists s', f a s = Done tt s' /\ frame s s') ->
  forall s, exists s', forM_ l f s = Done tt s' /\ frame s s'.
Proof.
  intros Hf. induction l as [|a l IH]; intros s; simpl.
  - exists s. split; [done | apply frame_refl].
  - destruct (Hf a s) as (s1 & E1 & F1).
    destruct (IH s1) as (s2 & E2 & F2).
    exists s2. rewrite (bind_Done _ _ _ _ _ E1). eauto using frame_trans.
Qed.

Lemma releaseGroups_frame g s :
  exists s', releaseGroups g s = Done tt s' /\ frame s s'.
Proof.
  apply forM__frame. intros group s0.
  apply forM__frame. intros c s1. apply Release_frame.
Qed.

Lemma retainGroup_frame addrs : forall group s,
  exists s', retainGroup addrs group s
             = Done (group ++ map (mkConn replica) addrs) s' /\ frame s s'.
Proof.
  induction addrs as [|a addrs IH]; intros group s; simpl.
  - exists s. rewrite app_nil_r. split; [done | apply frame_refl].
  - destruct (Retain_frame replica a s) as (s1 & E1 & F1).
    destruct (IH (group ++ [mkConn replica a]) s1) as (s2 & E2 & F2).
    exists s2. rewrite (bind_Done _ _ _ _ _ E1), E2, <- app_assoc.
    eauto using frame_trans.
Qed.

Lemma retainGroups_frame groups : forall x s,
  exists s', retainGroups groups x s
             = Done (set_replicaGroups (replicaGroups x ++ installedGroups groups) x) s'
             /\ frame s s'.
Proof.
  induction groups as [|addrs groups IH]; intros x s; simpl.
  - exists s. unfold installedGroups; simpl. rewrite app_nil_r.
    split; [by destruct x | apply frame_refl].
  - destruct (retainGroup_frame addrs [] s) as (s1 & E1 & F1). simpl in E1.
    rewrite (bind_Done _ _ _ _ _ E1).
    unfold installedGroups. simpl.
    destruct (map (mkConn replica) addrs) as [|c group] eqn:Eg; simpl.
    + destruct (IH x s1) as (s2 & E2 & F2). exists s2.
      eauto using frame_trans.
    + destruct (IH (set_replicaGroups (replicaGroups x ++ [c :: group]) x) s1)
        as (s2 & E2 & F2).
      exists s2. rewrite E2. simpl.
      rewrite <- app_assoc. eauto using frame_trans.
Qed.

Lemma frame_pool_event p f e s : frame s (record e (set_pool p f s)).
Proof. by destruct p. Qed.

Lemma refill_frame x m sw s :
  exists s', refill x m sw s = Done (refilled x m sw) s' /\ frame s s'.
Proof.
  unfold refill.
  destruct (Release_frame (bc (backend x)) s) as (s1 & E1 & F1).
  rewrite (bind_Done _ _ _ _ _ E1). cbv zeta.
  destruct (Release_frame (bc (migrate (set_backend noTarget x))) s1) as (s2 & E2 & F2).
  rewrite (bind_Done _ _ _ _ _ E2).
  destruct (releaseGroups_frame
              (replicaGroups (set_migrate noTarget (set_backend noTarget x))) s2)
    as (s3 & E3 & F3).
  rewrite (bind_Done _ _ _ _ _ E3).
  assert (F : frame s s3) by eauto using frame_trans.
  clear E1 E2 E3 F1 F2 F3.
  unfold refilled, installedTarget.
  destruct (is_set (models.BackendAddr m)), (is_set (models.MigrateFrom m));
    cbv [bind Retain modify ret];
    match goal with
    | |- exists s', retainGroups ?g ?y ?t = _ /\ _ =>
        destruct (retainGroups_frame g y t) as (s6 & E6 & F6);
        exists s6; rewrite E6; split; [reflexivity|]
    end.
  - eapply frame_trans; [|exact F6].
    eapply frame_trans; [|apply frame_pool_event].
    eapply frame_trans; [exact F | apply frame_pool_event].
  - eapply frame_trans; [|exact F6].
    eapply frame_trans; [exact F | apply frame_pool_event].
  - eapply frame_trans; [|exact F6].
    eapply frame_trans; [exact F | apply frame_pool_event].
  - eapply frame_trans; [exact F | exact F6].
Qed.

Lemma slotRef_run (i : nat) s x :
  slots s !! i = Some x -> slotRef (Z.of_nat i) s = Done x s.
Proof.
  intros Hx. unfold slotRef.
  destruct (Z.ltb_spec (Z.of_nat i) 0); [lia|].
  by rewrite Nat2Z.id, Hx.
Qed.

(** [fillSlot] on a slot of the table: it returns, rewrites that slot and
    no other, and leaves the flags alone. *)
Lemma fillSlot_run m sw s (i : nat) x :
  models.Id m = Z.of_nat i ->
  slots s !! i = Some x ->
  exists s', fillSlot m sw s = Done tt s'
             /\ slots s' = <[i := filled x m sw]> (slots s)
             /\ online s' = online s /\ closed s' = closed s.
Proof.
  intros Hi Hx. unfold fillSlot.
  rewrite Hi, (bind_Done _ _ _ _ _ (slotRef_run i s x Hx)). cbv zeta.
  destruct (refill_frame (blockAndWait x) m sw s) as (s1 & E & F1 & F2 & F3).
  rewrite (bind_Done _ _ _ _ _ E).
  unfold storeSlot, modify. eexists. split; [reflexivity|].
  simpl. rewrite Nat2Z.id, F1. by repeat split.
Qed.

(** ** The invariant of the table *)

Lemma installedTarget_ok a g : target_ok (installedTarget a g).
Proof.
  unfold installedTarget, target_ok. by destruct (is_set a) eqn:E; simpl.
Qed.

Lemma filled_ok i x m sw : id x = Z.of_nat i -> slot_ok i (filled x m sw).
Proof.
  intros Hid. unfold filled, slot_ok.
  destruct (negb (models.Locked m)); simpl; auto using installedTarget_ok.
Qed.

Lemma emptySlot_lookup (n i : nat) x :
  map emptySlot (seq 0 n) !! i = Some x -> x = emptySlot i.
Proof.
  rewrite list_lookup_fmap. intros H.
  destruct (seq 0 n !! i) as [j|] eqn:E; simpl in H; [|done].
  apply lookup_seq in E as [-> _]. by inversion H.
Qed.

Lemma wf_NewRouter : wf NewRouter.
Proof.
  split; simpl.
  - by rewrite length_map, length_seq.
  - intros i x H. apply emptySlot_lookup in H as ->. by repeat split.
Qed.

Lemma wf_insert s s' (i : nat) x y :
  wf s -> slots s !! i = Some x -> slot_ok i y ->
  slots s' = <[i := y]> (slots s) -> wf s'.
Proof.
  intros [Hlen Hok] Hx Hy Hs. split.
  - by rewrite Hs, length_insert.
  - intros j z. rewrite Hs. destruct (decide (i = j)) as [->|Hne].
    + rewrite list_lookup_insert_eq by (by eapply lookup_lt_Some).
      by intros [= <-].
    + rewrite list_lookup_insert_ne by done. apply Hok.
Qed.

Lemma wf_frame s s' : wf s -> slots s' = slots s -> wf s'.
Proof. unfold wf. by intros H ->. Qed.

Lemma wf_lookup s (i : Z) :
  wf s -> 0 <= i < Z.of_nat MaxSlotNum ->
  exists x, slots s !! Z.to_nat i = Some x /\ slot_ok (Z.to_nat i) x.
Proof.
  intros [Hlen Hok] Hi.
  destruct (lookup_lt_is_Some_2 (slots s) (Z.to_nat i)) as [x Hx]; [lia|].
  eauto.
Qed.

(** ** Loops over the table *)

(** The invariant rule of [for i := range s.slots]. *)
Lemma forM__range (P : nat -> Router -> Prop) (f : Z -> M unit) (n : nat) :
  forall (a : nat) s,
    P a s ->
    (forall (k : nat) t, (a <= k < a + n)%nat -> P k t ->
       exists t', f (Z.of_nat k) t = Done tt t' /\ P (S k) t') ->
    exists s', forM_ (map Z.of_nat (seq a n)) f s = Done tt s' /\ P (a + n)%nat s'.
Proof.
  induction n as [|n IH]; intros a s HP Hf; simpl.
  - exists s. by rewrite Nat.add_0_r.
  - destruct (Hf a s) as (s1 & E1 & HP1); [lia | done |].
    destruct (IH (S a) s1 HP1) as (s2 & E2 & HP2).
    { intros k t Hk. apply Hf. lia. }
    exists s2. rewrite (bind_Done _ _ _ _ _ E1).
    split; [done|]. by replace (a + S n)%nat with (S a + n)%nat by lia.
Qed.

(** ** The operations on a well-formed table *)

Lemma Start_run s :
  Start s = Done tt (if closed s then s else set_online true s).
Proof. unfold Start, bind, get. by destruct (closed s). Qed.

Lemma filled_empty (i : nat) x :
  id x = Z.of_nat i -> filled x (emptyDescriptor (Z.of_nat i)) false = emptySlot i.
Proof. destruct x; simpl. intros ->. reflexivity. Qed.

(** [Close] on an open router: every slot is reset to the slot
    [NewRouter] starts with. *)
Lemma Close_run s :
  wf s -> closed s = false ->
  exists s', Close s = Done tt s'
             /\ closed s' = true /\ online s' = online s
             /\ slots s' = map emptySlot (seq 0 MaxSlotNum).
Proof.
  intros [Hlen Hok] Hopen. unfold Close, bind at 1, get. rewrite Hopen.
  unfold bind at 1, modify at 1.
  pose (P := fun (k : nat) (t : Router) =>
    closed t = true /\ online t = online s /\ length (slots t) = MaxSlotNum /\
    (forall (j : nat) x, slots t !! j = Some x -> id x = Z.of_nat j) /\
    (forall (j : nat) x, (j < k)%nat -> slots t !! j = Some x -> x = emptySlot j)).
  destruct (forM__range P (fun i => fillSlot (emptyDescriptor i) false)
              (length (slots s)) 0%nat (set_closed true s)) as (s' & E & HP).
  - repeat split; simpl; try done.
    + intros j x Hx. by destruct (Hok j x Hx).
    + intros j x Hj. lia.
  - intros k t Hk (Hc & Ho & Hl & Hid & Hdone).
    destruct (lookup_lt_is_Some_2 (slots t) k) as [x Hx]; [lia|].
    destruct (fillSlot_run (emptyDescriptor (Z.of_nat k)) false t k x eq_refl Hx)
      as (t' & Et & Hs & Hon & Hcl).
    exists t'. split; [done|].
    rewrite (filled_empty k x (Hid k x Hx)) in Hs.
    repeat split; try congruence.
    + by rewrite Hs, length_insert.
    + intros j y. rewrite Hs. destruct (decide (k = j)) as [->|Hne].
      * rewrite list_lookup_insert_eq by lia. by intros [= <-].
      * rewrite list_lookup_insert_ne by done. apply Hid.
    + intros j y Hj. rewrite Hs. destruct (decide (k = j)) as [->|Hne].
      * rewrite list_lookup_insert_eq by lia. by intros [= <-].
      * rewrite list_lookup_insert_ne by done. apply Hdone. lia.
  - destruct HP as (Hc & Ho & Hl & Hid & Hdone).
    exists s'. unfold slotRange. repeat split; try done.
    apply list_eq. intros j. rewrite list_lookup_fmap.
    destruct (slots s' !! j) as [x|] eqn:Hx.
    + pose proof (lookup_lt_Some _ _ _ Hx) as Hlt.
      rewrite lookup_seq_lt by lia. simpl. f_equal. apply Hdone; [lia | done].
    + apply lookup_ge_None in Hx. rewrite lookup_seq_ge by lia. done.
Qed.

Lemma Close_closed s : closed s = true -> Close s = Done tt s.
Proof. intros H. unfold Close, bind, get. by rewrite H. Qed.

(** [FillSlot] on an open router and a valid id. *)
Lemma FillSlot_run m s :
  wf s -> closed s = false -> 0 <= models.Id m < Z.of_nat MaxSlotNum ->
  exists x s', slots s !! Z.to_nat (models.Id m) = Some x
               /\ FillSlot m s = Done None s'
               /\ slots s' = <[Z.to_nat (models.Id m) := filled x m false]> (slots s)
               /\ online s' = online s /\ closed s' = false.
Proof.
  intros Hwf Hopen Hi.
  destruct (wf_lookup s (models.Id m) Hwf Hi) as (x & Hx & _).
  unfold FillSlot, bind at 1, get. rewrite Hopen.
  destruct (Z.ltb_spec (models.Id m) 0); [lia|].
  destruct (Z.geb_spec (models.Id m) (Z.of_nat MaxSlotNum)); [lia|]. simpl.
  destruct (fillSlot_run m false s (Z.to_nat (models.Id m)) x) as (s' & E & Hs & Ho & Hc);
    [lia | done |].
  exists x, s'. rewrite (bind_Done _ _ _ _ _ E). unfold ret.
  repeat split; try done. congruence.
Qed.

Lemma FillSlot_closed m s :
  closed s = true -> FillSlot m s = Done (Some ErrClosedRouter) s.
Proof. intros H. unfold FillSlot, bind, get. by rewrite H. Qed.

Lemma FillSlot_invalid m s :
  closed s = false ->
  (models.Id m < 0 \/ Z.of_nat MaxSlotNum <= models.Id m) ->
  FillSlot m s = Done (Some ErrInvalidSlotId) s.
Proof.
  intros H Hi. unfold FillSlot, bind, get. rewrite H.
  destruct (Z.ltb_spec (models.Id m) 0); [done|].
  destruct (Z.geb_spec (models.Id m) (Z.of_nat MaxSlotNum)); [done|]. lia.
Qed.

Lemma slotOf_lt hkey : (0 < MaxSlotNum)%nat -> (slotOf hkey < MaxSlotNum)%nat.
Proof.
  intros H. unfold slotOf.
  pose proof (N.mod_upper_bound (Hash hkey) (N.of_nat MaxSlotNum)). lia.
Qed.

(** [dispatch] calls [forward] once, on the slot of the one hash key. *)
Lemma dispatch_run r s x :
  slots s !! slotOf (getHashKey (Multi r) (OpStr r)) = Some x ->
  dispatch r s = forward x r (getHashKey (Multi r) (OpStr r)) s.
Proof.
  intros Hx. unfold dispatch. cbv zeta.
  set (hkey := getHashKey (Multi r) (OpStr r)) in *.
  assert (E : slotRef (Z.of_N (Hash hkey mod N.of_nat MaxSlotNum)) s = Done x s).
  { unfold slotRef.
    pose proof (N2Z.is_nonneg (Hash hkey mod N.of_nat MaxSlotNum)) as Hpos.
    destruct (Z.ltb_spec (Z.of_N (Hash hkey mod N.of_nat MaxSlotNum)) 0) as [Hneg|_].
    { exfalso. revert Hneg Hpos. generalize (Z.of_N (Hash hkey mod N.of_nat MaxSlotNum)).
      intros; lia. }
    rewrite <- N_nat_Z, Nat2Z.id. fold (slotOf hkey). by rewrite Hx. }
  unfold bind. by rewrite E.
Qed.

Lemma forward_frame x r hkey s :
  exists e s', forward x r hkey s = Done e s' /\ frame s s'.
Proof.
  unfold forward. destruct (hold x).
  { exists (Some SlotNotReady), s. split; [done | apply frame_refl]. }
  destruct (bc (backend x)) as [b|].
  2:{ exists (Some SlotNotReady), s. split; [done | apply frame_refl]. }
  destruct (bc (migrate x)) as [from|]; [destruct (nonempty hkey)|];
    (eexists _, _; split; [reflexivity | by repeat split]).
Qed.

(** ** Switching masters *)

Lemma switchPlan_Id masters m :
  models.Id (switchPlan masters m).1 = models.Id m.
Proof.
  unfold switchPlan.
  destruct (is_set (master masters (models.BackendAddrGroupId m)));
    [destruct (negb _)|]; simpl;
    (destruct (is_set (master masters (models.MigrateFromGroupId m)));
       [destruct (negb _)|]); reflexivity.
Qed.

Lemma trySwitchMaster_run masters s (i : nat) x :
  slots s !! i = Some x -> id x = Z.of_nat i ->
  exists s', trySwitchMaster (Z.of_nat i) masters s = Done tt s'
             /\ slots s' = <[i := switchedSlot masters x]> (slots s)
             /\ online s' = online s /\ closed s' = closed s
             /\ (stable masters x -> s' = s).
Proof.
  intros Hx Hid. unfold trySwitchMaster, stable, switchedSlot.
  rewrite (bind_Done _ _ _ _ _ (slotRef_run i s x Hx)).
  pose proof (switchPlan_Id masters (snapshot x false)) as HId.
  destruct (switchPlan masters (snapshot x false)) as [m update]. simpl in HId.
  destruct update; simpl.
  - destruct (fillSlot_run m true s i x) as (s' & E & Hs & Ho & Hc);
      [congruence | done |].
    exists s'. by repeat split.
  - exists s. unfold ret. repeat split; try done.
    by rewrite list_insert_id.
Qed.

Lemma is_set_false a : is_set a = false -> a = "".
Proof. by destruct a. Qed.

Lemma switchedSlot_ok masters i x :
  slot_ok i x -> slot_ok i (switchedSlot masters x).
Proof.
  intros Hok. unfold switchedSlot.
  destruct (switchPlan masters (snapshot x false)) as [m [|]]; [|done].
  apply filled_ok. by destruct Hok.
Qed.

Lemma switchPlan_spec masters m :
  switchPlan masters m =
  (with_MigrateFrom
     (newAddr masters (models.MigrateFromGroupId m) (models.MigrateFrom m))
     (with_BackendAddr
        (newAddr masters (models.BackendAddrGroupId m) (models.BackendAddr m)) m),
   changed masters (models.BackendAddrGroupId m) (models.BackendAddr m)
   || changed masters (models.MigrateFromGroupId m) (models.MigrateFrom m)).
Proof.
  destruct m as [i l ba bg mf mg rg].
  unfold switchPlan, newAddr, changed. simpl.
  destruct (is_set (master masters bg)); simpl.
  - destruct (String.eqb_spec (master masters bg) ba) as [->|Hb]; simpl;
      destruct (is_set (master masters mg)); simpl; try reflexivity;
      destruct (String.eqb_spec (master masters mg) mf) as [->|Hm]; reflexivity.
  - destruct (is_set (master masters mg)); simpl; try reflexivity.
    destruct (String.eqb_spec (master masters mg) mf) as [->|Hm]; reflexivity.
Qed.

(** Once a field carries the planned address, the same mapping plans no
    further update for it. *)
Lemma installed_unchanged masters t :
  target_ok t ->
  let t' := installedTarget (newAddr masters (gid t) (Addr (bc t))) (gid t) in
  changed masters (gid t') (Addr (bc t')) = false.
Proof.
  intros Hok. unfold newAddr, changed, installedTarget.
  destruct (is_set (master masters (gid t))) eqn:E; simpl.
  - rewrite E. simpl. by rewrite E, String.eqb_refl.
  - destruct (is_set (Addr (bc t))) eqn:Ea; simpl.
    + by rewrite E.
    + unfold target_ok in Hok. destruct (bc t) as [c|]; simpl in Ea.
      * congruence.
      * by rewrite <- Hok, E.
Qed.

Lemma stable_iff masters x :
  stable masters x <->
  changed masters (gid (backend x)) (Addr (bc (backend x))) = false /\
  changed masters (gid (migrate x)) (Addr (bc (migrate x))) = false.
Proof.
  unfold stable. rewrite switchPlan_spec. simpl. apply orb_false_iff.
Qed.

Lemma switchedSlot_stable masters i x :
  slot_ok i x -> stable masters (switchedSlot masters x).
Proof.
  intros (_ & Hb & Hm). unfold switchedSlot.
  destruct (switchPlan masters (snapshot x false)) as [m update] eqn:Eplan.
  destruct update; [|unfold stable; by rewrite Eplan].
  rewrite switchPlan_spec in Eplan. injection Eplan as <- _.
  apply stable_iff. unfold filled.
  destruct (negb _); simpl;
    split; (apply installed_unchanged; assumption).
Qed.

(** [SwitchMasters] on an open router: it returns without an error,
    leaves every slot stable under the mapping, and keeps every property
    [Q] of the slots that one switch keeps. *)
Lemma SwitchMasters_run masters (Q : Slot -> Prop) s :
  wf s -> closed s = false ->
  (forall i x, slot_ok i x -> Q x -> Q (switchedSlot masters x)) ->
  (forall x, x ∈ slots s -> Q x) ->
  exists s', SwitchMasters masters s = Done None s'
             /\ wf s' /\ closed s' = false /\ online s' = online s
             /\ (forall x, x ∈ slots s' -> stable masters x /\ Q x).
Proof.
  intros Hwf Hopen HQ HQs. unfold SwitchMasters, bind at 1, get. rewrite Hopen.
  pose (P := fun (k : nat) (t : Router) =>
    wf t /\ closed t = false /\ online t = online s /\
    (forall (j : nat) x, slots t !! j = Some x -> Q x) /\
    (forall (j : nat) x, (j < k)%nat -> slots t !! j = Some x -> stable masters x)).
  destruct (forM__range P (fun i => trySwitchMaster i masters)
              (length (slots s)) 0%nat s) as (s' & E & HP).
  - split; [exact Hwf|]. split; [done|]. split; [done|]. split.
    + intros j x Hx. apply HQs, list_elem_of_lookup. eauto.
    + intros; lia.
  - intros k t Hk (Ht & Hc & Ho & HQt & Hdone).
    destruct (lookup_lt_is_Some_2 (slots t) k) as [x Hx].
    { destruct Hwf as [Hl _], Ht as [Hl' _]. lia. }
    pose proof (proj2 Ht k x Hx) as Hok.
    destruct (trySwitchMaster_run masters t k x Hx (proj1 Hok))
      as (t' & Et & Hs & Hon & Hcl & _).
    exists t'. split; [done|].
    split; [apply (wf_insert t t' k x (switchedSlot masters x));
            auto using switchedSlot_ok|].
    split; [congruence|]. split; [congruence|]. split.
    + intros j y. rewrite Hs. destruct (decide (k = j)) as [->|Hne].
      * rewrite list_lookup_insert_eq by (by eapply lookup_lt_Some).
        intros [= <-]. eauto.
      * rewrite list_lookup_insert_ne by done. apply HQt.
    + intros j y Hj. rewrite Hs. destruct (decide (k = j)) as [->|Hne].
      * rewrite list_lookup_insert_eq by (by eapply lookup_lt_Some).
        intros [= <-]. eauto using switchedSlot_stable.
      * rewrite list_lookup_insert_ne by done. apply Hdone. lia.
  - destruct HP as (Ht & Hc & Ho & HQt & Hdone).
    exists s'. unfold slotRange. rewrite (bind_Done _ _ _ _ _ E). unfold ret.
    split; [done|]. split; [done|]. split; [done|]. split; [done|].
    intros x Hx. apply list_elem_of_lookup in Hx as [j Hj]. split; [|eauto].
    apply (Hdone j); [|done]. apply lookup_lt_Some in Hj.
    destruct Hwf as [Hl _], Ht as [Hl' _]. simpl. lia.
Qed.

Lemma SwitchMasters_open masters s :
  wf s -> closed s = false ->
  exists s', SwitchMasters masters s = Done None s'
             /\ wf s' /\ closed s' = false /\ online s' = online s
             /\ (forall x, x ∈ slots s' -> stable masters x).
Proof.
  intros Hwf Hopen.
  destruct (SwitchMasters_run masters (fun _ => True) s) as (s' & E & H1 & H2 & H3 & H4);
    auto.
  exists s'. repeat (split; [done|]). intros x Hx. by apply H4.
Qed.

(** [SwitchMasters] when every slot is stable: nothing is touched. *)
Lemma SwitchMasters_stable masters s :
  wf s -> closed s = false ->
  (forall x, x ∈ slots s -> stable masters x) ->
  SwitchMasters masters s = Done None s.
Proof.
  intros Hwf Hopen Hst. unfold SwitchMasters, bind at 1, get. rewrite Hopen.
  destruct (forM__range (fun _ t => t = s) (fun i => trySwitchMaster i masters)
              (length (slots s)) 0%nat s) as (s' & E & ->); [done | |].
  - intros k t Hk ->.
    destruct (lookup_lt_is_Some_2 (slots s) k) as [x Hx]; [lia|].
    pose proof (proj2 Hwf k x Hx) as Hok.
    destruct (trySwitchMaster_run masters s k x Hx (proj1 Hok))
      as (t' & Et & _ & _ & _ & Hsame).
    exists s. rewrite Et. split; [f_equal|done].
    apply Hsame, Hst. apply list_elem_of_lookup. eauto.
  - unfold slotRange. by rewrite (bind_Done _ _ _ _ _ E).
Qed.

Lemma SwitchMasters_closed masters s :
  closed s = true -> SwitchMasters masters s = Done (Some ErrClosedRouter) s.
Proof. intros H. unfold SwitchMasters, bind, get. by rewrite H. Qed.

(** ** Invariants of the reachable states *)

Lemma slotRef_same i s x s' : slotRef i s = Done x s' -> s' = s.
Proof.
  unfold slotRef. destruct (i <? 0); [done|].
  destruct (slots s !! Z.to_nat i); [|done]. by intros [= _ <-].
Qed.

Lemma dispatch_frame r s e s' : dispatch r s = Done e s' -> frame s s'.
Proof.
  unfold dispatch, bind. cbv zeta.
  destruct (slotRef _ s) as [x s1|] eqn:E; [|done].
  apply slotRef_same in E as ->.
  destruct (forward_frame x r (getHashKey (Multi r) (OpStr r)) s) as (e' & s2 & E2 & F).
  rewrite E2. by intros [= _ <-].
Qed.

Lemma wf_empties s :
  slots s = map emptySlot (seq 0 MaxSlotNum) -> wf s.
Proof. intros H. eapply (wf_frame NewRouter); [apply wf_NewRouter | done]. Qed.

(** A closed router is frozen: no operation changes its table or its
    flags. *)
Lemma run_op_closed o s s' :
  closed s = true -> run_op o s = Done tt s' -> frame s s'.
Proof.
  intros Hc. destruct o as [| |m|masters|r]; simpl.
  - rewrite Start_run, Hc. intros [= <-]. apply frame_refl.
  - rewrite (Close_closed s Hc). intros [= <-]. apply frame_refl.
  - unfold bind. rewrite (FillSlot_closed m s Hc). intros [= <-]. apply frame_refl.
  - unfold bind. rewrite (SwitchMasters_closed masters s Hc).
    intros [= <-]. apply frame_refl.
  - unfold bind. destruct (dispatch r s) as [e s1|] eqn:E; [|done].
    intros [= <-]. by eapply dispatch_frame.
Qed.

Lemma id_range_dec (i : Z) :
  {0 <= i < Z.of_nat MaxSlotNum} + {i < 0 \/ Z.of_nat MaxSlotNum <= i}.
Proof.
  destruct (Z_lt_dec i 0); [right; lia|].
  destruct (Z_le_dec (Z.of_nat MaxSlotNum) i); [right; lia | left; lia].
Qed.

Lemma run_op_wf o s s' : wf s -> run_op o s = Done tt s' -> wf s'.
Proof.
  intros Hwf. destruct (closed s) eqn:Hc.
  { intros H. apply (run_op_closed o s s' Hc) in H as (Hs & _).
    by apply (wf_frame s). }
  destruct o as [| |m|masters|r]; simpl.
  - rewrite Start_run, Hc. intros [= <-]. by apply (wf_frame s).
  - destruct (Close_run s Hwf Hc) as (s1 & E & _ & _ & Hs). rewrite E.
    intros [= <-]. by apply wf_empties.
  - unfold bind. destruct (id_range_dec (models.Id m)) as [Hi|Hi].
    + destruct (FillSlot_run m s Hwf Hc Hi) as (x & s1 & Hx & E & Hs & _).
      rewrite E. intros [= <-].
      apply (wf_insert s s1 (Z.to_nat (models.Id m)) x (filled x m false));
        auto.
      apply filled_ok. by destruct (proj2 Hwf _ _ Hx).
    + rewrite (FillSlot_invalid m s Hc Hi). by intros [= <-].
  - unfold bind. destruct (SwitchMasters_open masters s Hwf Hc) as (s1 & E & Hwf1 & _).
    rewrite E. by intros [= <-].
  - unfold bind. destruct (dispatch r s) as [e s1|] eqn:E; [|done].
    intros [= <-]. apply dispatch_frame in E as (Hs & _). by apply (wf_frame s).
Qed.

(** The rule for proving an invariant of the histories whose operations
    all satisfy [Q]. *)
Lemma run_invariant_on (Q : op -> Prop) (P : Router -> Prop) :
  (forall o s s', Q o -> P s -> run_op o s = Done tt s' -> P s') ->
  forall ops s s', Forall Q ops -> P s -> run ops s = Done tt s' -> P s'.
Proof.
  intros Hstep. induction ops as [|o ops IH]; intros s s' HQ HP; simpl.
  - by intros [= <-].
  - apply Forall_cons in HQ as [Ho HQ].
    unfold bind. destruct (run_op o s) as [[] s1|] eqn:E; [|done].
    intros H. eapply IH; [exact HQ | | exact H]. eauto.
Qed.

Lemma run_invariant (P : Router -> Prop) :
  (forall o s s', P s -> run_op o s = Done tt s' -> P s') ->
  forall ops s s', P s -> run ops s = Done tt s' -> P s'.
Proof.
  intros Hstep ops s s'. apply (run_invariant_on (fun _ => True)); [eauto|].
  by apply Forall_forall.
Qed.

Lemma reachable_wf s : reachable s -> wf s.
Proof.
  intros [ops H]. revert H. apply run_invariant; [|apply wf_NewRouter].
  intros o t t'. apply run_op_wf.
Qed.

Lemma run_op_drained o s s' :
  wf s -> drained s -> run_op o s = Done tt s' -> drained s'.
Proof.
  intros Hwf Hd. destruct (closed s) eqn:Hc.
  { intros H. apply (run_op_closed o s s' Hc) in H as (Hs & _ & Hc').
    intros _. rewrite Hs. by apply Hd. }
  destruct o as [| |m|masters|r]; simpl.
  - rewrite Start_run, Hc. intros [= <-]. unfold drained. simpl. congruence.
  - destruct (Close_run s Hwf Hc) as (s1 & E & _ & _ & Hs). rewrite E.
    by intros [= <-] _.
  - unfold bind. destruct (id_range_dec (models.Id m)) as [Hi|Hi].
    + destruct (FillSlot_run m s Hwf Hc Hi) as (x & s1 & _ & E & _ & _ & Hc1).
      rewrite E. intros [= <-]. unfold drained. congruence.
    + rewrite (FillSlot_invalid m s Hc Hi). intros [= <-]. unfold drained. congruence.
  - unfold bind. destruct (SwitchMasters_open masters s Hwf Hc) as (s1 & E & _ & Hc1 & _).
    rewrite E. intros [= <-]. unfold drained. congruence.
  - unfold bind. destruct (dispatch r s) as [e s1|] eqn:E; [|done].
    intros [= <-]. apply dispatch_frame in E as (_ & _ & Hc1).
    unfold drained. congruence.
Qed.

Lemma reachable_drained s : reachable s -> drained s.
Proof.
  intros [ops H].
  cut (wf s /\ drained s); [tauto|]. revert H.
  apply (run_invariant (fun t => wf t /\ drained t)).
  - intros o t t' [Hwf Hd] E. eauto using run_op_wf, run_op_drained.
  - split; [apply wf_NewRouter | by intros _].
Qed.

Lemma later_reachable s t : reachable s -> later s t -> reachable t.
Proof.
  intros [ops1 H1] [ops2 H2]. exists (ops1 ++ ops2).
  revert H1. generalize NewRouter. induction ops1 as [|o ops1 IH]; intros s0; simpl.
  - by intros [= ->].
  - unfold bind. destruct (run_op o s0) as [[] s1|]; [|done]. apply IH.
Qed.

Lemma later_frame s t : closed s = true -> later s t -> frame s t.
Proof.
  intros Hc [ops H]. revert H.
  apply (run_invariant (fun t => frame s t)); [|apply frame_refl].
  intros o u u' Hu E. eapply frame_trans; [exact Hu|].
  apply (run_op_closed o u u'); [|done]. destruct Hu as (_ & _ & ->). done.
Qed.

Lemma later_step o s s' : run_op o s = Done tt s' -> later s s'.
Proof. intros E. exists [o]. simpl. unfold bind. by rewrite E. Qed.

(** ** Reading the table *)

Lemma GetSlot_run (i : Z) s :
  wf s -> 0 <= i < Z.of_nat MaxSlotNum ->
  exists x, slots s !! Z.to_nat i = Some x
            /\ GetSlot i s = Done (Some (snapshot x true)) s.
Proof.
  intros Hwf Hi. destruct (wf_lookup s i Hwf Hi) as (x & Hx & _).
  exists x. split; [done|]. unfold GetSlot.
  destruct (Z.ltb_spec i 0); [lia|].
  destruct (Z.geb_spec i (Z.of_nat MaxSlotNum)); [lia|]. simpl.
  unfold bind, slotRef. destruct (Z.ltb_spec i 0); [lia|]. by rewrite Hx.
Qed.

Lemma GetSlot_outside (i : Z) s :
  i < 0 \/ Z.of_nat MaxSlotNum <= i -> GetSlot i s = Done None s.
Proof.
  intros Hi. unfold GetSlot.
  destruct (Z.ltb_spec i 0); [done|].
  destruct (Z.geb_spec i (Z.of_nat MaxSlotNum)); [done|]. lia.
Qed.

Lemma Addr_installed a g : Addr (bc (installedTarget a g)) = a.
Proof.
  unfold installedTarget. destruct (is_set a) eqn:E; simpl; [done|].
  symmetry. by apply is_set_false.
Qed.

Lemma gid_installed a g :
  gid (installedTarget a g) = if is_set a then g else 0.
Proof. unfold installedTarget. by destruct (is_set a). Qed.

Lemma addrs_installedGroups groups :
  map (map addr) (installedGroups groups) = List.filter nonempty groups.
Proof.
  unfold installedGroups. induction groups as [|g groups IH]; simpl; [done|].
  destruct g as [|a g]; simpl; [done|]. f_equal; [|done].
  f_equal. rewrite map_map. simpl. apply map_id.
Qed.

Lemma hold_filled x m sw : hold (filled x m sw) = models.Locked m.
Proof. unfold filled. by destruct (models.Locked m). Qed.

Lemma forward_not_ready x r hkey s :
  bc (backend x) = None \/ hold x = true ->
  forward x r hkey s = Done (Some SlotNotReady) s.
Proof.
  intros H. unfold forward. destruct (hold x); [done|].
  destruct H as [->|?]; done.
Qed.

Lemma forward_ready x r hkey s b :
  hold x = false -> bc (backend x) = Some b ->
  exists s', forward x r hkey s = Done None s'
             /\ frame s s'
             /\ pushes (events s') = pushes (events s) ++ [(b, r)].
Proof.
  intros Hh Hb. unfold forward. rewrite Hh, Hb.
  destruct (bc (migrate x)) as [from|]; [destruct (nonempty hkey)|];
    (eexists; split; [reflexivity|]; split; [by repeat split|]);
    simpl; unfold pushes; rewrite !flat_map_app; simpl;
    by rewrite ?app_nil_r.
Qed.

(** * The claims *)

(** C6: [FillSlot] returns [ErrClosedRouter] on a closed router and, on an
    open one, [ErrInvalidSlotId] for an id outside [0, MaxSlotNum) (the
    closed check comes first); in both cases the state it returns is the
    state it was given: no slot is touched, and the pools and the history
    of retains and releases are the same. *)
Theorem FillSlot_failure_applies_nothing (m : models.Slot) (s : Router) :
  (closed s = true -> FillSlot m s = Done (Some ErrClosedRouter) s) /\
  (closed s = false ->
   models.Id m < 0 \/ Z.of_nat MaxSlotNum <= models.Id m ->
   FillSlot m s = Done (Some ErrInvalidSlotId) s).
Proof.
  split.
  - apply FillSlot_closed.
  - apply FillSlot_invalid.
Qed.

(** C7: when the hash key of a request selects a slot that has no backend
    connection, or whose gate is held, [dispatch] returns [SlotNotReady]
    and the state is unchanged: the error is reported and nothing was
    pushed onto any connection. *)
Theorem dispatch_slot_not_ready (r : Request) (s : Router) (x : Slot) :
  slots s !! slotOf (getHashKey (Multi r) (OpStr r)) = Some x ->
  bc (backend x) = None \/ hold x = true ->
  dispatch r s = Done (Some SlotNotReady) s.
Proof.
  intros Hx Hnr. rewrite (dispatch_run r s x Hx).
  by apply forward_not_ready.
Qed.

(** C8: [fillSlot] on a slot of the table blocks the slot first, keeps it
    held while it releases and retains, and unblocks it at the end exactly
    when [m.Locked] is false: afterwards the gate is held if and only if
    [m.Locked] is true. *)
Theorem fillSlot_gate_follows_Locked (m : models.Slot) (sw : bool) (s : Router)
    (i : nat) (x : Slot) :
  models.Id m = Z.of_nat i ->
  slots s !! i = Some x ->
  hold (blockAndWait x) = true /\
  (forall y t, refill (blockAndWait x) m sw s = Done y t -> hold y = true) /\
  exists s' y, fillSlot m sw s = Done tt s'
               /\ slots s' !! i = Some y
               /\ (hold y = true <-> models.Locked m = true).
Proof.
  intros Hi Hx. split; [done|]. split.
  - intros y t E.
    destruct (refill_frame (blockAndWait x) m sw s) as (t' & E' & _).
    rewrite E' in E. by injection E as <- _.
  - destruct (fillSlot_run m sw s i x Hi Hx) as (s' & E & Hs & _).
    exists s', (filled x m sw). split; [done|]. split.
    + rewrite Hs. apply list_lookup_insert_eq. by eapply lookup_lt_Some.
    + by rewrite hold_filled.
Qed.

(** C10: for an id outside [0, MaxSlotNum), [GetSlot] returns nil and the
    router is unchanged; for an id [i] inside the range it returns, never
    nil and never a panic, the snapshot of the slot at index [i] of the
    table, replica groups included, which is the slot with id [i]; the
    router is unchanged as well. *)
Theorem GetSlot_nil_outside_range (i : Z) (s : Router) :
  reachable s ->
  (i < 0 \/ Z.of_nat MaxSlotNum <= i -> GetSlot i s = Done None s) /\
  (0 <= i < Z.of_nat MaxSlotNum ->
   exists x, slots s !! Z.to_nat i = Some x /\ id x = i /\
             GetSlot i s = Done (Some (snapshot x true)) s).
Proof.
  intros Hr. pose proof (reachable_wf s Hr) as Hwf. split.
  - apply GetSlot_outside.
  - intros Hi. destruct (GetSlot_run i s Hwf Hi) as (x & Hx & E).
    exists x. split; [done|]. split; [|done].
    destruct (proj2 Hwf _ _ Hx) as (Hid & _). lia.
Qed.

(** C4: in every reachable state, [SwitchMasters] returns, and a second
    call with the same mapping returns the same result in the very same
    state: no slot is refilled, the pools and the history of retains and
    releases are untouched, and [HasSwitched] answers the same before and
    after the second call. *)
Theorem SwitchMasters_twice_no_churn (masters : gmap Z string) (s : Router) :
  reachable s ->
  exists e s1 s2,
    SwitchMasters masters s = Done e s1 /\
    SwitchMasters masters s1 = Done e s2 /\
    events s2 = events s1 /\
    pool_primary s2 = pool_primary s1 /\ pool_replica s2 = pool_replica s1 /\
    slots s2 = slots s1 /\
    exists b, HasSwitched s1 = Done b s1 /\ HasSwitched s2 = Done b s2.
Proof.
  intros Hr. pose proof (reachable_wf s Hr) as Hwf.
  destruct (closed s) eqn:Hc.
  - exists (Some ErrClosedRouter), s, s.
    rewrite (SwitchMasters_closed masters s Hc).
    repeat (split; [done|]). by exists (existsb switched (slots s)).
  - destruct (SwitchMasters_open masters s Hwf Hc) as (s1 & E & Hwf1 & Hc1 & _ & Hst).
    exists None, s1, s1. split; [done|].
    split; [by apply SwitchMasters_stable|].
    repeat (split; [done|]). by exists (existsb switched (slots s1)).
Qed.

(** ** Migration sources and backends *)

Lemma filled_paired x m sw : names_backend m -> paired (filled x m sw).
Proof.
  unfold names_backend, paired, filled, refilled, installedTarget.
  intros Hm. destruct (negb (models.Locked m)); simpl;
    destruct (is_set (models.MigrateFrom m)); simpl; try done;
    rewrite Hm by done; done.
Qed.

Lemma is_set_newAddr masters t :
  target_ok t -> bc t <> None ->
  is_set (newAddr masters (gid t) (Addr (bc t))) = true.
Proof.
  unfold target_ok, newAddr. intros Hok Hbc.
  destruct (is_set (master masters (gid t))) eqn:E; [done|].
  by destruct (bc t).
Qed.

Lemma switchedSlot_paired masters i x :
  slot_ok i x -> paired x -> paired (switchedSlot masters x).
Proof.
  intros (_ & Hb & Hm) Hp. unfold switchedSlot.
  destruct (switchPlan masters (snapshot x false)) as [m update] eqn:Eplan.
  destruct update; [|done].
  rewrite switchPlan_spec in Eplan. injection Eplan as <- _.
  apply filled_paired. unfold names_backend. simpl.
  destruct (bc (migrate x)) as [c|] eqn:Ec.
  - intros _. apply is_set_newAddr; [done|]. apply Hp. by rewrite Ec.
  - unfold target_ok in Hm. rewrite Ec in Hm. rewrite Hm. simpl.
    destruct (bc (backend x)) as [c|] eqn:Eb.
    + intros _. rewrite <- Eb. apply is_set_newAddr; [done|]. by rewrite Eb.
    + unfold target_ok in Hb. rewrite Eb in Hb. by rewrite Hb.
Qed.

Lemma emptySlots_Forall (P : Slot -> Prop) (n : nat) :
  (forall i, P (emptySlot i)) -> Forall P (map emptySlot (seq 0 n)).
Proof. intros H. apply Forall_fmap, Forall_forall. intros i _. apply H. Qed.

Lemma run_op_paired o s s' :
  op_names_backend o ->
  wf s /\ Forall paired (slots s) ->
  run_op o s = Done tt s' ->
  wf s' /\ Forall paired (slots s').
Proof.
  intros Ho [Hwf Hp] E. split; [by eapply run_op_wf|]. revert E.
  destruct (closed s) eqn:Hc.
  { intros H. apply (run_op_closed o s s' Hc) in H as (Hs & _). by rewrite Hs. }
  destruct o as [| |m|masters|r]; simpl in *.
  - rewrite Start_run, Hc. by intros [= <-].
  - destruct (Close_run s Hwf Hc) as (s1 & E & _ & _ & Hs). rewrite E.
    intros [= <-]. rewrite Hs. apply emptySlots_Forall.
    intros i H. by destruct H.
  - unfold bind. destruct (id_range_dec (models.Id m)) as [Hi|Hi].
    + destruct (FillSlot_run m s Hwf Hc Hi) as (x & s1 & Hx & E & Hs & _).
      rewrite E. intros [= <-]. rewrite Hs.
      apply Forall_insert; [done | by apply filled_paired].
    + rewrite (FillSlot_invalid m s Hc Hi). by intros [= <-].
  - unfold bind.
    destruct (SwitchMasters_run masters paired s Hwf Hc) as (s1 & E & _ & _ & _ & HQ).
    { apply switchedSlot_paired. }
    { by apply Forall_forall. }
    rewrite E. intros [= <-]. apply Forall_forall. intros x Hx. by apply HQ.
  - unfold bind. destruct (dispatch r s) as [e s1|] eqn:E; [|done].
    intros [= <-]. apply dispatch_frame in E as (Hs & _). by rewrite Hs.
Qed.

(** C1, as amended: on an open router and for a valid id, [FillSlot m]
    succeeds and [GetSlot m.Id] then returns a snapshot with the backend
    and migrate addresses of [m]; a group id is the one of [m] when its
    address is not empty and 0 otherwise; the replica groups are those of
    [m] without the empty ones; and the slot's [switched] flag is false,
    which is what [FillSlot] passes (a descriptor carries no such
    flag). *)
Theorem FillSlot_then_GetSlot (m : models.Slot) (s : Router) :
  reachable s -> closed s = false ->
  0 <= models.Id m < Z.of_nat MaxSlotNum ->
  exists s1 v x,
    FillSlot m s = Done None s1 /\
    GetSlot (models.Id m) s1 = Done (Some v) s1 /\
    models.BackendAddr v = models.BackendAddr m /\
    models.BackendAddrGroupId v
      = (if is_set (models.BackendAddr m) then models.BackendAddrGroupId m else 0) /\
    models.MigrateFrom v = models.MigrateFrom m /\
    models.MigrateFromGroupId v
      = (if is_set (models.MigrateFrom m) then models.MigrateFromGroupId m else 0) /\
    models.ReplicaGroups v = List.filter nonempty (models.ReplicaGroups m) /\
    slots s1 !! Z.to_nat (models.Id m) = Some x /\ switched x = false.
Proof.
  intros Hr Hc Hi. pose proof (reachable_wf s Hr) as Hwf.
  destruct (FillSlot_run m s Hwf Hc Hi) as (x & s1 & Hx & E & Hs & _).
  assert (Hwf1 : wf s1).
  { apply (wf_insert s s1 (Z.to_nat (models.Id m)) x (filled x m false)); auto.
    apply filled_ok. by destruct (proj2 Hwf _ _ Hx). }
  destruct (GetSlot_run (models.Id m) s1 Hwf1 Hi) as (y & Hy & Eg).
  assert (y = filled x m false) as ->.
  { pose proof Hy as Hy'.
    rewrite Hs, list_lookup_insert_eq in Hy' by (by eapply lookup_lt_Some).
    by injection Hy'. }
  exists s1, (snapshot (filled x m false) true), (filled x m false).
  split; [done|]. split; [done|].
  rewrite Hy. clear Hy Eg.
  unfold filled. destruct (negb (models.Locked m)); simpl;
    by rewrite !Addr_installed, !gid_installed, addrs_installedGroups.
Qed.

(** C2, as amended: [Close] returns and marks the router closed; from
    then on, whatever operations follow, every slot is empty, [FillSlot]
    fails with [ErrClosedRouter], and [dispatch], which does not look at
    the [closed] flag, fails with [SlotNotReady] because the slot it
    selects has no backend; neither changes the state. *)
Theorem Close_drains_and_closes (s : Router) :
  reachable s ->
  exists s', Close s = Done tt s' /\ closed s' = true /\
    forall t, later s' t ->
      (forall x, x ∈ slots t -> isEmpty x) /\
      (forall m, FillSlot m t = Done (Some ErrClosedRouter) t) /\
      ((0 < MaxSlotNum)%nat ->
       forall r, dispatch r t = Done (Some SlotNotReady) t).
Proof.
  intros Hr.
  assert (exists s', Close s = Done tt s' /\ closed s' = true) as (s' & E & Hc').
  { destruct (closed s) eqn:Hc.
    - exists s. by rewrite Close_closed.
    - destruct (Close_run s (reachable_wf s Hr) Hc) as (s' & E & Hc' & _). eauto. }
  exists s'. split; [done|]. split; [done|]. intros t Ht.
  assert (Hrt : reachable t).
  { eapply later_reachable; [|exact Ht].
    eapply later_reachable; [exact Hr|]. by apply (later_step OpClose). }
  pose proof (later_frame s' t Hc' Ht) as (_ & _ & Hct). rewrite Hc' in Hct.
  pose proof (reachable_drained t Hrt Hct) as Hst.
  split; [|split].
  - intros x Hx. rewrite Hst in Hx.
    apply list_elem_of_fmap in Hx as (i & -> & _). by repeat split.
  - intros m. by apply FillSlot_closed.
  - intros Hpos r.
    destruct (lookup_lt_is_Some_2 (slots t)
                (slotOf (getHashKey (Multi r) (OpStr r)))) as [x Hx].
    { rewrite Hst, length_map, length_seq. by apply slotOf_lt. }
    rewrite (dispatch_run r t x Hx). apply forward_not_ready. left.
    rewrite Hst in Hx. by apply emptySlot_lookup in Hx as ->.
Qed.

(** C3, as amended: in every state reached by [Start], [FillSlot],
    [SwitchMasters], [Close] and [dispatch], where every descriptor given
    to [FillSlot] that names a migration source also names a backend, a
    slot whose migrate connection is not nil has a backend connection that
    is not nil.  [FillSlot] itself does not check the descriptor. *)
Theorem migrate_implies_backend (ops : list op) (s : Router) :
  Forall op_names_backend ops ->
  run ops NewRouter = Done tt s ->
  forall x, x ∈ slots s -> bc (migrate x) <> None -> bc (backend x) <> None.
Proof.
  intros Hops E.
  assert (wf s /\ Forall paired (slots s)) as [_ Hp].
  { apply (run_invariant_on op_names_backend
             (fun t => wf t /\ Forall paired (slots t))) with ops NewRouter;
      [|done| |done].
    - intros o t t' Ho Ht. by apply run_op_paired.
    - split; [apply wf_NewRouter|]. apply emptySlots_Forall.
      intros i H. by destruct H. }
  intros x Hx. by apply (proj1 (Forall_forall _ _) Hp).
Qed.

(** C5, as amended: [dispatch] hashes the one key that [getHashKey]
    selects and calls [forward] once, on the slot of that key, whatever
    the other keys of the request are.  It never fails with
    [CrossShardRequest]: either the slot is not ready, the result is
    [SlotNotReady] and nothing is pushed, or the request is pushed exactly
    once, onto the backend connection of that slot. *)
Theorem dispatch_by_single_hash_key (r : Request) (s : Router) :
  reachable s -> (0 < MaxSlotNum)%nat ->
  exists x e s',
    slots s !! slotOf (getHashKey (Multi r) (OpStr r)) = Some x /\
    dispatch r s = Done e s' /\
    e <> Some CrossShardRequest /\
    ((e = Some SlotNotReady /\ s' = s /\ (bc (backend x) = None \/ hold x = true))
     \/
     (e = None /\ hold x = false /\
      exists b, bc (backend x) = Some b /\
                pushes (events s') = pushes (events s) ++ [(b, r)])).
Proof.
  intros Hr Hpos. destruct (reachable_wf s Hr) as [Hlen _].
  destruct (lookup_lt_is_Some_2 (slots s)
              (slotOf (getHashKey (Multi r) (OpStr r)))) as [x Hx].
  { rewrite Hlen. by apply slotOf_lt. }
  exists x. rewrite (dispatch_run r s x Hx).
  destruct (hold x) eqn:Hh.
  { exists (Some SlotNotReady), s. rewrite forward_not_ready by auto.
    repeat (split; [done|]). left. auto. }
  destruct (bc (backend x)) as [b|] eqn:Hb.
  - destruct (forward_ready x r (getHashKey (Multi r) (OpStr r)) s b Hh Hb)
      as (s' & E & _ & Hp).
    exists None, s'. repeat (split; [done|]). right. eauto.
  - exists (Some SlotNotReady), s. rewrite forward_not_ready by auto.
    repeat (split; [done|]). left. auto.
Qed.

(** C9, as amended: once [Close] has run the router never is online
    again: in every later state [Start] changes nothing, [closed] is
    true, [isOnline] is false, and the [online] field keeps the value it
    had when [Close] ran (true if the router had been started). *)
Theorem closed_router_never_online (s : Router) :
  reachable s ->
  exists s', Close s = Done tt s' /\ closed s' = true /\ online s' = online s /\
    forall t, later s' t ->
      Start t = Done tt t /\ closed t = true /\ online t = online s /\
      isOnline t = false.
Proof.
  intros Hr.
  assert (exists s', Close s = Done tt s' /\ closed s' = true /\ online s' = online s)
    as (s' & E & Hc' & Ho').
  { destruct (closed s) eqn:Hc.
    - exists s. by rewrite Close_closed.
    - destruct (Close_run s (reachable_wf s Hr) Hc) as (s' & E & Hc' & Ho' & _). eauto. }
  exists s'. repeat (split; [done|]). intros t Ht.
  destruct (later_frame s' t Hc' Ht) as (_ & Hot & Hct). rewrite Hc' in Hct.
  split; [by rewrite Start_run, Hct|]. split; [done|]. split; [congruence|].
  unfold isOnline. rewrite Hct. apply andb_false_r.
Qed.

(** * Further properties of the router *)

(** ** Reference counts *)

Lemma role_eq_dec (p q : role) : {p = q} + {p <> q}.
Proof. decide equality. Qed.

Lemma pool_of_set_same p f e s :
  pool_of p (record e (set_pool p f s)) = f (pool_of p s).
Proof. by destruct p. Qed.

Lemma pool_of_set_other p q f e s :
  p <> q -> pool_of q (record e (set_pool p f s)) = pool_of q s.
Proof. by destruct p, q. Qed.

Lemma occ_single c d : occ c [d] = if conn_eq_dec d c then 1%nat else 0%nat.
Proof. unfold occ. simpl. by destruct (conn_eq_dec d c). Qed.

Lemma occ_app c l1 l2 : occ c (l1 ++ l2) = (occ c l1 + occ c l2)%nat.
Proof. apply count_occ_app. Qed.

Lemma occ_cons c d l : occ c (d :: l) = (occ c [d] + occ c l)%nat.
Proof. apply (occ_app c [d] l). Qed.

(** [Retain] adds one reference to the connection it returns and to no
    other. *)
Lemma Retain_counts p a s :
  no_zero s ->
  exists s', Retain p a s = Done (mkConn p a) s' /\ frame s s' /\ no_zero s' /\
             forall c, refcount s' c = (refcount s c + occ c [mkConn p a])%nat.
Proof.
  intros Hnz. eexists. split; [reflexivity|]. split; [apply frame_pool_event|].
  split.
  - intros q b. destruct (role_eq_dec p q) as [<-|Hpq].
    + rewrite pool_of_set_same. unfold pool_retain.
      destruct (decide (a = b)) as [<-|Hab].
      * by rewrite lookup_insert_eq.
      * rewrite lookup_insert_ne by done. apply Hnz.
    + rewrite pool_of_set_other by done. apply Hnz.
  - intros [q b]. rewrite occ_single. unfold refcount. cbn [owner addr].
    destruct (conn_eq_dec (mkConn p a) (mkConn q b)) as [[= <- <-]|Hne].
    + rewrite pool_of_set_same. unfold pool_retain.
      rewrite lookup_insert_eq. simpl. lia.
    + rewrite Nat.add_0_r. destruct (role_eq_dec p q) as [<-|Hpq].
      * rewrite pool_of_set_same. unfold pool_retain.
        rewrite lookup_insert_ne; [done|]. intros <-. by apply Hne.
      * by rewrite pool_of_set_other.
Qed.

(** [Release] of a connection that is referenced takes one reference
    from it and from no other. *)
Lemma Release_counts c0 s :
  no_zero s -> (1 <= refcount s c0)%nat ->
  exists s', Release (Some c0) s = Done tt s' /\ frame s s' /\ no_zero s' /\
             forall c, (refcount s' c + occ c [c0])%nat = refcount s c.
Proof.
  intros Hnz Hpos. destruct c0 as [p a]. unfold refcount in Hpos. simpl in Hpos.
  eexists. split; [reflexivity|]. split; [apply frame_pool_event|].
  cbn [owner addr]. split.
  - intros q b. destruct (role_eq_dec p q) as [<-|Hpq].
    + rewrite pool_of_set_same. unfold pool_release.
      destruct (pool_of p s !! a) as [[|[|n]]|] eqn:E; try apply Hnz.
      * destruct (decide (a = b)) as [<-|Hab].
        -- by rewrite lookup_delete_eq.
        -- rewrite lookup_delete_ne by done. apply Hnz.
      * destruct (decide (a = b)) as [<-|Hab].
        -- by rewrite lookup_delete_eq.
        -- rewrite lookup_delete_ne by done. apply Hnz.
      * destruct (decide (a = b)) as [<-|Hab].
        -- by rewrite lookup_insert_eq.
        -- rewrite lookup_insert_ne by done. apply Hnz.
    + rewrite pool_of_set_other by done. apply Hnz.
  - intros [q b]. rewrite occ_single. unfold refcount. cbn [owner addr].
    destruct (conn_eq_dec (mkConn p a) (mkConn q b)) as [[= <- <-]|Hne].
    + rewrite pool_of_set_same. unfold pool_release.
      destruct (pool_of p s !! a) as [[|[|n]]|] eqn:E; simpl in *; try lia.
      * rewrite lookup_delete_eq. simpl. lia.
      * rewrite lookup_insert_eq. simpl. lia.
    + rewrite Nat.add_0_r. destruct (role_eq_dec p q) as [<-|Hpq].
      * rewrite pool_of_set_same. unfold pool_release.
        assert (a <> b) by (intros <-; by apply Hne).
        destruct (pool_of p s !! a) as [[|[|n]]|] eqn:E; try done.
        -- by rewrite lookup_delete_ne.
        -- by rewrite lookup_delete_ne.
        -- by rewrite lookup_insert_ne.
      * by rewrite pool_of_set_other.
Qed.

Lemma releases_nil : releases (ret tt) [].
Proof.
  intros s Hnz _. exists s. split; [done|]. split; [apply frame_refl|].
  split; [done|]. intros d. unfold occ. simpl. lia.
Qed.

Lemma releases_seq c1 c2 l1 l2 :
  releases c1 l1 -> releases c2 l2 -> releases (c1 ;;; c2) (l1 ++ l2).
Proof.
  intros H1 H2 s Hnz Hle.
  destruct (H1 s Hnz) as (s1 & E1 & F1 & Hnz1 & R1).
  { intros d. specialize (Hle d). rewrite occ_app in Hle. lia. }
  destruct (H2 s1 Hnz1) as (s2 & E2 & F2 & Hnz2 & R2).
  { intros d. specialize (Hle d). specialize (R1 d). rewrite occ_app in Hle. lia. }
  exists s2. rewrite (bind_Done _ _ _ _ _ E1).
  split; [done|]. split; [by eapply frame_trans|]. split; [done|].
  intros d. specialize (R1 d). specialize (R2 d). rewrite occ_app. lia.
Qed.

Lemma releases_Release o : releases (Release o) (conn_of o).
Proof.
  destruct o as [c0|]; [|apply releases_nil].
  intros s Hnz Hle. apply Release_counts; [done|].
  specialize (Hle c0). cbn [conn_of] in Hle. rewrite occ_single in Hle.
  by destruct (conn_eq_dec c0 c0).
Qed.

Lemma releases_list l : releases (forM_ l (fun c => Release (Some c))) l.
Proof.
  induction l as [|c0 l IH]; simpl; [apply releases_nil|].
  apply (releases_seq _ _ [c0] l); [apply (releases_Release (Some c0)) | done].
Qed.

Lemma releases_groups g : releases (releaseGroups g) (concat g).
Proof.
  unfold releaseGroups. induction g as [|group g IH]; simpl; [apply releases_nil|].
  apply releases_seq; [apply releases_list | done].
Qed.

Lemma retains_ret {A} (a : A) : retains (ret a) a [].
Proof.
  intros s Hnz. exists s. split; [done|]. split; [apply frame_refl|].
  split; [done|]. intros d. unfold occ. simpl. lia.
Qed.

Lemma retains_bind {A B} (c : M A) (k : A -> M B) a b l1 l2 :
  retains c a l1 -> retains (k a) b l2 -> retains (bind c k) b (l1 ++ l2).
Proof.
  intros H1 H2 s Hnz.
  destruct (H1 s Hnz) as (s1 & E1 & F1 & Hnz1 & R1).
  destruct (H2 s1 Hnz1) as (s2 & E2 & F2 & Hnz2 & R2).
  exists s2. rewrite (bind_Done _ _ _ _ _ E1).
  split; [done|]. split; [by eapply frame_trans|]. split; [done|].
  intros d. rewrite R2, R1, occ_app. lia.
Qed.

Lemma retains_Retain p a : retains (Retain p a) (mkConn p a) [mkConn p a].
Proof. intros s Hnz. by apply Retain_counts. Qed.

Lemma retains_group addrs : forall group,
  retains (retainGroup addrs group) (group ++ map (mkConn replica) addrs)
          (map (mkConn replica) addrs).
Proof.
  induction addrs as [|a addrs IH]; intros group; simpl.
  - rewrite app_nil_r. apply retains_ret.
  - apply (retains_bind _ _ (mkConn replica a) _ [mkConn replica a]);
      [apply retains_Retain|].
    replace (group ++ mkConn replica a :: map (mkConn replica) addrs)
      with ((group ++ [mkConn replica a]) ++ map (mkConn replica) addrs)
      by (by rewrite <- app_assoc).
    apply IH.
Qed.

Lemma retains_groups groups : forall x,
  retains (retainGroups groups x)
          (set_replicaGroups (replicaGroups x ++ installedGroups groups) x)
          (concat (installedGroups groups)).
Proof.
  induction groups as [|addrs groups IH]; intros x; simpl.
  - unfold installedGroups. simpl. rewrite app_nil_r.
    destruct x. apply retains_ret.
  - unfold installedGroups. simpl.
    pose proof (retains_group addrs []) as Hg. simpl in Hg.
    destruct (map (mkConn replica) addrs) as [|c group] eqn:Eg; simpl.
    + apply (retains_bind _ _ [] _ [] _ Hg). simpl. apply IH.
    + apply (retains_bind _ _ (c :: group) _ (c :: group) _ Hg). simpl.
      specialize (IH (set_replicaGroups (replicaGroups x ++ [c :: group]) x)).
      simpl in IH. rewrite <- app_assoc in IH. apply IH.
Qed.

(** [refill] releases what the slot holds and retains what the slot it
    returns holds. *)
Lemma refill_counts x m sw s :
  no_zero s -> (forall d, (occ d (slotConns x) <= refcount s d)%nat) ->
  exists s', refill x m sw s = Done (refilled x m sw) s' /\ frame s s' /\
             no_zero s' /\
             forall d, (refcount s' d + occ d (slotConns x))%nat
                       = (refcount s d + occ d (slotConns (refilled x m sw)))%nat.
Proof.
  intros Hnz Hle.
  assert (Hrel : releases (Release (bc (backend x)) ;;; Release (bc (migrate x)) ;;;
                           releaseGroups (replicaGroups x)) (slotConns x)).
  { unfold slotConns. apply releases_seq; [apply releases_Release|].
    apply releases_seq; [apply releases_Release | apply releases_groups]. }
  destruct (Hrel s Hnz Hle) as (s1 & E1 & F1 & Hnz1 & R1).
  set (y := set_switched sw (set_replicaGroups []
              (set_migrate noTarget (set_backend noTarget x)))).
  assert (Hret : retains
    (y1 <- (if is_set (models.BackendAddr m)
            then c <- Retain primary (models.BackendAddr m) ;;
                 ret (set_backend (mkTarget (models.BackendAddrGroupId m) (Some c)) y)
            else ret y) ;;
     y2 <- (if is_set (models.MigrateFrom m)
            then c <- Retain primary (models.MigrateFrom m) ;;
                 ret (set_migrate (mkTarget (models.MigrateFromGroupId m) (Some c)) y1)
            else ret y1) ;;
     retainGroups (models.ReplicaGroups m) y2)
    (refilled x m sw) (slotConns (refilled x m sw))).
  { unfold refilled, slotConns, installedTarget. simpl.
    destruct (is_set (models.BackendAddr m)); simpl.
    - eapply (retains_bind _ _ _ _ [_]).
      { eapply (retains_bind _ _ _ _ [_] []); [apply retains_Retain | apply retains_ret]. }
      destruct (is_set (models.MigrateFrom m)); simpl.
      + eapply (retains_bind _ _ _ _ [_]).
        { eapply (retains_bind _ _ _ _ [_] []); [apply retains_Retain | apply retains_ret]. }
        apply (retains_groups (models.ReplicaGroups m)).
      + eapply (retains_bind _ _ _ _ []); [apply retains_ret|].
        apply (retains_groups (models.ReplicaGroups m)).
    - eapply (retains_bind _ _ _ _ []); [apply retains_ret|].
      destruct (is_set (models.MigrateFrom m)); simpl.
      + eapply (retains_bind _ _ _ _ [_]).
        { eapply (retains_bind _ _ _ _ [_] []); [apply retains_Retain | apply retains_ret]. }
        apply (retains_groups (models.ReplicaGroups m)).
      + eapply (retains_bind _ _ _ _ []); [apply retains_ret|].
        apply (retains_groups (models.ReplicaGroups m)). }
  destruct (Hret s1 Hnz1) as (s2 & E2 & F2 & Hnz2 & R2).
  exists s2. split.
  - unfold refill. cbv zeta. fold y.
    cbn [migrate set_backend replicaGroups set_migrate].
    unfold bind in E1 |- *.
    destruct (Release (bc (backend x)) s) as [[] t1|]; [|done].
    simpl in E1 |- *.
    destruct (Release (bc (migrate x)) t1) as [[] t2|]; [|done].
    destruct (releaseGroups (replicaGroups x) t2) as [[] t3|]; [|done].
    injection E1 as ->. exact E2.
  - split; [by eapply frame_trans|]. split; [done|].
    intros d. specialize (R1 d). rewrite R2. lia.
Qed.

Lemma occ_held_insert d (l : list Slot) (i : nat) x y :
  l !! i = Some x ->
  (occ d (flat_map slotConns (<[i := y]> l)) + occ d (slotConns x))%nat
  = (occ d (flat_map slotConns l) + occ d (slotConns y))%nat.
Proof.
  intros Hx. pose proof (lookup_lt_Some _ _ _ Hx) as Hlt.
  rewrite insert_take_drop by done.
  rewrite <- (take_drop_middle l i x Hx) at 3.
  rewrite !flat_map_app. simpl. rewrite !occ_app. lia.
Qed.

Lemma occ_slot_le d (l : list Slot) (i : nat) x :
  l !! i = Some x -> (occ d (slotConns x) <= occ d (flat_map slotConns l))%nat.
Proof.
  intros Hx. rewrite <- (take_drop_middle l i x Hx).
  rewrite flat_map_app. simpl. rewrite !occ_app. lia.
Qed.

Lemma slotConns_filled x m sw :
  slotConns (filled x m sw) = slotConns (refilled (blockAndWait x) m sw).
Proof. unfold filled. by destruct (negb (models.Locked m)). Qed.

Lemma counted_ext s s' :
  pool_primary s' = pool_primary s -> pool_replica s' = pool_replica s ->
  slots s' = slots s -> counted s -> counted s'.
Proof.
  intros Hp Hr Hs [Hnz Hc]. split.
  - intros [] a; simpl; rewrite ?Hp, ?Hr; [apply (Hnz primary) | apply (Hnz replica)].
  - intros [[] a]; unfold refcount, held; simpl; rewrite ?Hp, ?Hr, Hs;
      [apply (Hc (mkConn primary a)) | apply (Hc (mkConn replica a))].
Qed.

(** [fillSlot] keeps the table well formed and the reference counts
    exact. *)
Lemma fillSlot_keeps m sw s (i : nat) x :
  models.Id m = Z.of_nat i -> slots s !! i = Some x ->
  wf s -> counted s ->
  exists s', fillSlot m sw s = Done tt s' /\ wf s' /\ counted s' /\
             slots s' = <[i := filled x m sw]> (slots s) /\
             online s' = online s /\ closed s' = closed s.
Proof.
  intros Hi Hx Hwf [Hnz Hc].
  destruct (refill_counts (blockAndWait x) m sw s Hnz) as (s1 & E & (F1 & F2 & F3) & Hnz1 & R).
  { intros d. rewrite Hc. apply (occ_slot_le d (slots s) i x Hx). }
  eexists. split.
  { unfold fillSlot. rewrite Hi, (bind_Done _ _ _ _ _ (slotRef_run i s x Hx)).
    cbv zeta. rewrite (bind_Done _ _ _ _ _ E). reflexivity. }
  fold (filled x m sw). simpl. rewrite Nat2Z.id, F1.
  split; [|split; [|by repeat split]].
  - apply (wf_insert s _ i x (filled x m sw));
      [done | done | | simpl; by rewrite F1].
    apply filled_ok. by destruct (proj2 Hwf _ _ Hx).
  - split.
    + intros [] a; [apply (Hnz1 primary) | apply (Hnz1 replica)].
    + intros d. unfold held. simpl.
      pose proof (occ_held_insert d (slots s) i x (filled x m sw) Hx) as Hins.
      rewrite slotConns_filled in Hins. specialize (R d). specialize (Hc d).
      unfold held in Hc.
      assert (refcount (set_slots (fun l => <[i:=filled x m sw]> l) s1) d
              = refcount s1 d) as -> by (by destruct d as [[] ?]).
      change (slotConns (blockAndWait x)) with (slotConns x) in R.
      rewrite F1. lia.
Qed.

Lemma forward_pools x r hkey s e s' :
  forward x r hkey s = Done e s' ->
  pool_primary s' = pool_primary s /\ pool_replica s' = pool_replica s /\
  slots s' = slots s.
Proof.
  unfold forward. destruct (hold x); [by intros [= _ <-]|].
  destruct (bc (backend x)) as [b|]; [|by intros [= _ <-]].
  destruct (bc (migrate x)) as [from|]; [destruct (nonempty hkey)|];
    by intros [= _ <-].
Qed.

Lemma trySwitchMaster_keeps masters s (i : nat) x :
  slots s !! i = Some x -> wf s -> counted s ->
  exists s', trySwitchMaster (Z.of_nat i) masters s = Done tt s' /\
             wf s' /\ counted s' /\ closed s' = closed s.
Proof.
  intros Hx Hwf Hc. unfold trySwitchMaster.
  rewrite (bind_Done _ _ _ _ _ (slotRef_run i s x Hx)).
  pose proof (switchPlan_Id masters (snapshot x false)) as HId.
  destruct (switchPlan masters (snapshot x false)) as [m update]. simpl in HId.
  destruct update; simpl.
  - destruct (fillSlot_keeps m true s i x) as (s' & E & Hwf' & Hc' & _ & _ & Hcl); auto.
    { rewrite HId. by destruct (proj2 Hwf _ _ Hx). }
    eauto.
  - exists s. split; [done|]. split; [done|]. by split.
Qed.

Lemma run_op_counted o s s' :
  wf s -> counted s -> run_op o s = Done tt s' -> counted s'.
Proof.
  intros Hwf Hc. destruct o as [| |m|masters|r]; simpl.
  - rewrite Start_run. intros [= <-]. by destruct (closed s).
  - unfold Close, bind at 1, get. destruct (closed s) eqn:Hcl; [by intros [= <-]|].
    unfold bind at 1, modify at 1.
    destruct (forM__range (fun _ t => wf t /\ counted t)
                (fun i => fillSlot (emptyDescriptor i) false)
                (length (slots s)) 0%nat (set_closed true s)) as (t & E & _ & Ht).
    + split; [by apply (wf_frame s) | by apply (counted_ext s)].
    + intros k u Hk [Hu Hcu].
      destruct (lookup_lt_is_Some_2 (slots u) k) as [x Hx].
      { destruct Hwf as [Hl _], Hu as [Hl' _]. lia. }
      destruct (fillSlot_keeps (emptyDescriptor (Z.of_nat k)) false u k x)
        as (u' & Eu & Hu' & Hcu' & _); auto.
      eauto.
    + unfold slotRange. rewrite E. by intros [= <-].
  - unfold bind, FillSlot, bind, get. destruct (closed s) eqn:Hcl; [by intros [= <-]|].
    destruct (id_range_dec (models.Id m)) as [Hi|Hi].
    + destruct (Z.ltb_spec (models.Id m) 0); [lia|].
      destruct (Z.geb_spec (models.Id m) (Z.of_nat MaxSlotNum)); [lia|]. simpl.
      destruct (wf_lookup s (models.Id m) Hwf Hi) as (x & Hx & _).
      destruct (fillSlot_keeps m false s (Z.to_nat (models.Id m)) x)
        as (u & Eu & _ & Hcu & _); auto; [lia|].
      rewrite Eu. by intros [= <-].
    + destruct (Z.ltb_spec (models.Id m) 0); [by intros [= <-]|].
      destruct (Z.geb_spec (models.Id m) (Z.of_nat MaxSlotNum)); [by intros [= <-]|].
      lia.
  - unfold bind at 1. unfold SwitchMasters, bind at 1, get.
    destruct (closed s) eqn:Hcl; [by intros [= <-]|].
    destruct (forM__range (fun _ t => wf t /\ counted t)
                (fun i => trySwitchMaster i masters)
                (length (slots s)) 0%nat s) as (t & E & _ & Ht); [done| |].
    + intros k u Hk [Hu Hcu].
      destruct (lookup_lt_is_Some_2 (slots u) k) as [x Hx].
      { destruct Hwf as [Hl _], Hu as [Hl' _]. lia. }
      destruct (trySwitchMaster_keeps masters u k x) as (u' & Eu & Hu' & Hcu' & _); auto.
      eauto.
    + unfold slotRange. rewrite (bind_Done _ _ _ _ _ E). by intros [= <-].
  - unfold bind at 1. unfold dispatch. cbv zeta. unfold bind.
    destruct (slotRef _ s) as [x s1|] eqn:E; [|done].
    apply slotRef_same in E as ->.
    destruct (forward x r _ s) as [e s2|] eqn:E2; [|done].
    intros [= <-]. apply forward_pools in E2 as (Hp & Hr & Hs).
    by apply (counted_ext s).
Qed.

Lemma counted_NewRouter : counted NewRouter.
Proof.
  split.
  - intros [] a; simpl; by rewrite lookup_empty.
  - intros [[] a]; unfold refcount, held; simpl; rewrite lookup_empty; simpl;
      (induction (seq 0 MaxSlotNum) as [|i l IH]; [done | exact IH]).
Qed.

Lemma reachable_counted s : reachable s -> counted s.
Proof.
  intros [ops H].
  cut (wf s /\ counted s); [tauto|]. revert H.
  apply (run_invariant (fun t => wf t /\ counted t)).
  - intros o t t' [Hwf Hc] E. eauto using run_op_wf, run_op_counted.
  - split; [apply wf_NewRouter | apply counted_NewRouter].
Qed.

Lemma occ_pos_In d l : (0 < occ d l)%nat <-> In d l.
Proof. unfold occ. symmetry. apply count_occ_In. Qed.

Lemma In_held s d :
  In d (held s) <-> exists (i : nat) x, slots s !! i = Some x /\ In d (slotConns x).
Proof.
  unfold held. rewrite in_flat_map. split.
  - intros (x & Hx & Hd). apply list_elem_of_In, list_elem_of_lookup in Hx as [i Hi].
    eauto.
  - intros (i & x & Hi & Hd). exists x. split; [|done].
    apply list_elem_of_In, list_elem_of_lookup. eauto.
Qed.

Lemma counted_pools_eq s t :
  counted s -> counted t -> slots s = slots t ->
  pool_primary s = pool_primary t /\ pool_replica s = pool_replica t.
Proof.
  intros [Hnzs Hcs] [Hnzt Hct] Hst.
  assert (H : forall p a, pool_of p s !! a = pool_of p t !! a).
  { intros p a. pose proof (Hcs (mkConn p a)) as H1. pose proof (Hct (mkConn p a)) as H2.
    unfold refcount, held in H1, H2. simpl in H1, H2. rewrite Hst in H1.
    pose proof (Hnzs p a) as N1. pose proof (Hnzt p a) as N2.
    destruct (pool_of p s !! a) as [[|n]|], (pool_of p t !! a) as [[|k]|];
      simpl in *; try done; congruence. }
  split; apply map_eq; intros a; [apply (H primary) | apply (H replica)].
Qed.

(** X1.  In every reachable state, the count a pool keeps for a
    connection is the number of places of the slot table (backend,
    migration source, replica entries) that hold it. *)
Theorem refcounts_match_table (s : Router) (c : sharedBackendConn) :
  reachable s -> refcount s c = occ c (held s).
Proof. intros Hr. by apply reachable_counted. Qed.

(** X2.  In every reachable state, a pool has an entry for an address
    exactly when some slot holds a connection of that pool for that
    address: a connection in use is never dropped from its pool, and
    none is left behind once its last holder is gone. *)
Theorem pooled_iff_held (s : Router) (p : role) (a : string) :
  reachable s ->
  is_Some (pool_of p s !! a) <->
  exists (i : nat) x, slots s !! i = Some x /\ In (mkConn p a) (slotConns x).
Proof.
  intros Hr. destruct (reachable_counted s Hr) as [Hnz Hc].
  rewrite <- In_held, <- occ_pos_In, <- Hc. unfold refcount. simpl.
  pose proof (Hnz p a) as N.
  destruct (pool_of p s !! a) as [[|n]|]; simpl.
  - by destruct N.
  - split; [intros _; lia | by eexists].
  - split; [intros [? H]; discriminate H | lia].
Qed.

(** X3.  [Close] releases everything: in every reachable state it
    returns, and both pools are empty afterwards. *)
Theorem Close_empties_pools (s : Router) :
  reachable s ->
  exists s', Close s = Done tt s' /\ pool_primary s' = ∅ /\ pool_replica s' = ∅.
Proof.
  intros Hr.
  assert (exists s', Close s = Done tt s' /\ closed s' = true) as (s' & E & Hc').
  { destruct (closed s) eqn:Hc.
    - exists s. by rewrite Close_closed.
    - destruct (Close_run s (reachable_wf s Hr) Hc) as (s' & E & Hc' & _). eauto. }
  exists s'. split; [done|].
  assert (Hr' : reachable s').
  { eapply later_reachable; [exact Hr|]. by apply (later_step OpClose). }
  apply (counted_pools_eq s' NewRouter).
  - by apply reachable_counted.
  - apply counted_NewRouter.
  - by apply reachable_drained.
Qed.

(** X4.  The pools are a function of the slot table: two reachable
    states with the same table have the same reference counts, whatever
    histories led to them. *)
Theorem pools_determined_by_table (s t : Router) :
  reachable s -> reachable t -> slots s = slots t ->
  pool_primary s = pool_primary t /\ pool_replica s = pool_replica t.
Proof.
  intros Hs Ht. apply counted_pools_eq; by apply reachable_counted.
Qed.

(** ** Switching masters, slot by slot *)

(** [SwitchMasters] on an open router treats every slot on its own: the
    table it leaves is the old one with [trySwitchMaster]'s update applied
    to each slot. *)
Lemma SwitchMasters_map masters s :
  wf s -> closed s = false ->
  exists s', SwitchMasters masters s = Done None s' /\
             slots s' = map (switchedSlot masters) (slots s) /\
             closed s' = false /\ online s' = online s.
Proof.
  intros Hwf Hopen. unfold SwitchMasters, bind at 1, get. rewrite Hopen.
  pose (P := fun (k : nat) (t : Router) =>
    slots t = map (switchedSlot masters) (take k (slots s)) ++ drop k (slots s) /\
    closed t = false /\ online t = online s).
  destruct (forM__range P (fun i => trySwitchMaster i masters)
              (length (slots s)) 0%nat s) as (s' & E & HP).
  - split; [|done]. by rewrite take_0, drop_0.
  - intros k t Hk (Hs & Hc & Ho).
    destruct (lookup_lt_is_Some_2 (slots s) k) as [x Hx]; [lia|].
    assert (Hlen : length (map (switchedSlot masters) (take k (slots s))) = k).
    { rewrite length_map, length_take. lia. }
    assert (Hxt : slots t !! k = Some x).
    { rewrite Hs, lookup_app_r by lia. rewrite Hlen, Nat.sub_diag.
      by rewrite lookup_drop, Nat.add_0_r. }
    destruct (trySwitchMaster_run masters t k x Hxt) as (t' & Et & Hs' & Hon & Hcl & _).
    { by destruct (proj2 Hwf k x Hx). }
    exists t'. split; [done|]. split; [|split; congruence].
    rewrite Hs', Hs. rewrite (take_S_r _ _ x Hx), map_app. simpl.
    rewrite <- app_assoc. simpl.
    rewrite (drop_S _ _ _ Hx), insert_app_r_alt by lia.
    by rewrite Hlen, Nat.sub_diag.
  - destruct HP as (Hs & Hc & Ho).
    exists s'. unfold slotRange. rewrite (bind_Done _ _ _ _ _ E). unfold ret.
    split; [done|]. split; [|done].
    simpl in Hs. by rewrite firstn_all, drop_all, app_nil_r in Hs.
Qed.

Lemma changed_false masters g a :
  changed masters g a = false -> master masters g = "" \/ a = master masters g.
Proof.
  unfold changed. destruct (is_set (master masters g)) eqn:E; simpl.
  - destruct (String.eqb_spec (master masters g) a); [auto | done].
  - intros _. left. by apply is_set_false.
Qed.

Lemma switchPlan_update masters m :
  (switchPlan masters m).2
  = changed masters (models.BackendAddrGroupId m) (models.BackendAddr m)
    || changed masters (models.MigrateFromGroupId m) (models.MigrateFrom m).
Proof. by rewrite switchPlan_spec. Qed.

Lemma filled_fields x m sw :
  id (filled x m sw) = id x /\
  switched (filled x m sw) = sw /\
  backend (filled x m sw)
    = installedTarget (models.BackendAddr m) (models.BackendAddrGroupId m) /\
  migrate (filled x m sw)
    = installedTarget (models.MigrateFrom m) (models.MigrateFromGroupId m) /\
  replicaGroups (filled x m sw) = installedGroups (models.ReplicaGroups m).
Proof. unfold filled. by destruct (negb (models.Locked m)). Qed.

(** X5.  After [SwitchMasters] on an open router, every slot whose
    backend (migrate) group has a master in the mapping points to that
    master: [GetSlot] reports the mapped address for it. *)
Theorem SwitchMasters_applies_mapping (masters : gmap Z string) (s : Router) :
  reachable s -> closed s = false ->
  exists s', SwitchMasters masters s = Done None s' /\
    forall i, 0 <= i < Z.of_nat MaxSlotNum ->
      exists v, GetSlot i s' = Done (Some v) s' /\
        (master masters (models.BackendAddrGroupId v) = ""
         \/ models.BackendAddr v = master masters (models.BackendAddrGroupId v)) /\
        (master masters (models.MigrateFromGroupId v) = ""
         \/ models.MigrateFrom v = master masters (models.MigrateFromGroupId v)).
Proof.
  intros Hr Hc.
  destruct (SwitchMasters_open masters s (reachable_wf s Hr) Hc)
    as (s' & E & Hwf' & _ & _ & Hst).
  exists s'. split; [done|]. intros i Hi.
  destruct (GetSlot_run i s' Hwf' Hi) as (x & Hx & Eg).
  exists (snapshot x true). split; [done|].
  assert (Hx' : x ∈ slots s') by (apply list_elem_of_lookup; eauto).
  apply Hst, stable_iff in Hx' as [Hb Hm]. simpl.
  split; by apply changed_false.
Qed.

(** X6.  [SwitchMasters] on an open router works slot by slot.  A slot
    for which the mapping names no new backend or migrate address is left
    exactly as it was.  A slot it updates is marked [switched], loses its
    replica groups (the refill is made from a snapshot without them),
    keeps its id, and gets the mapped address wherever the mapping names
    one. *)
Theorem SwitchMasters_per_slot (masters : gmap Z string) (s : Router)
    (i : nat) (x : Slot) :
  reachable s -> closed s = false -> slots s !! i = Some x ->
  exists s' x', SwitchMasters masters s = Done None s' /\
    slots s' !! i = Some x' /\
    if changed masters (gid (backend x)) (Addr (bc (backend x)))
       || changed masters (gid (migrate x)) (Addr (bc (migrate x)))
    then switched x' = true /\ replicaGroups x' = [] /\ id x' = id x /\
         Addr (bc (backend x'))
           = newAddr masters (gid (backend x)) (Addr (bc (backend x))) /\
         Addr (bc (migrate x'))
           = newAddr masters (gid (migrate x)) (Addr (bc (migrate x)))
    else x' = x.
Proof.
  intros Hr Hc Hx.
  destruct (SwitchMasters_map masters s (reachable_wf s Hr) Hc) as (s' & E & Hs & _).
  exists s', (switchedSlot masters x). split; [done|]. split.
  { by rewrite Hs, list_lookup_fmap, Hx. }
  unfold switchedSlot.
  pose proof (switchPlan_update masters (snapshot x false)) as Hu.
  rewrite switchPlan_spec in Hu |- *. simpl in Hu |- *.
  destruct (changed _ _ _ || changed _ _ _); [|done].
  match goal with
  | |- context [filled x ?m true] =>
      destruct (filled_fields x m true) as (-> & -> & -> & -> & ->)
  end.
  cbn [models.BackendAddr models.MigrateFrom models.ReplicaGroups
       with_MigrateFrom with_BackendAddr snapshot].
  by rewrite !Addr_installed.
Qed.

(** X7.  After [SwitchMasters] on an open router, [HasSwitched] is true
    exactly when it was true before or the call updated some slot. *)
Theorem HasSwitched_after_SwitchMasters (masters : gmap Z string) (s : Router) :
  reachable s -> closed s = false ->
  exists s', SwitchMasters masters s = Done None s' /\
    HasSwitched s'
    = Done (existsb switched (slots s)
            || existsb (fun x => (switchPlan masters (snapshot x false)).2) (slots s)) s'.
Proof.
  intros Hr Hc.
  destruct (SwitchMasters_map masters s (reachable_wf s Hr) Hc) as (s' & E & Hs & _).
  exists s'. split; [done|]. unfold HasSwitched, bind, get, ret. f_equal.
  rewrite Hs. clear. induction (slots s) as [|x l IH]; simpl; [done|].
  rewrite IH.
  assert (switched (switchedSlot masters x)
          = switched x || (switchPlan masters (snapshot x false)).2) as ->.
  { unfold switchedSlot.
    destruct (switchPlan masters (snapshot x false)) as [m [|]]; simpl.
    - destruct (filled_fields x m true) as (_ & -> & _). by rewrite orb_true_r.
    - by rewrite orb_false_r. }
  destruct (switched x), (switchPlan masters (snapshot x false)).2,
    (existsb switched l); reflexivity.
Qed.

(** ** Filling slots *)

Lemma filled_filled x m1 sw1 m2 sw2 :
  filled (filled x m1 sw1) m2 sw2 = filled x m2 sw2.
Proof.
  unfold filled at 1 3. destruct (filled_fields x m1 sw1) as (Hid & _).
  unfold refilled, blockAndWait, set_hold. cbn [id hold]. by rewrite Hid.
Qed.

(** X8.  [FillSlot] on an open router touches the slot it names and no
    other: the flags are as before, and [GetSlot] answers for every other
    id exactly what it answered before. *)
Theorem FillSlot_touches_one_slot (m : models.Slot) (s : Router) :
  reachable s -> closed s = false ->
  0 <= models.Id m < Z.of_nat MaxSlotNum ->
  exists s', FillSlot m s = Done None s' /\
    online s' = online s /\ closed s' = false /\
    forall j, j <> models.Id m ->
      exists v, GetSlot j s = Done v s /\ GetSlot j s' = Done v s'.
Proof.
  intros Hr Hc Hi. pose proof (reachable_wf s Hr) as Hwf.
  destruct (FillSlot_run m s Hwf Hc Hi) as (x & s' & Hx & E & Hs & Ho & Hc').
  exists s'. repeat (split; [done|]). intros j Hj.
  assert (Hwf' : wf s').
  { apply (wf_insert s s' (Z.to_nat (models.Id m)) x (filled x m false)); auto.
    apply filled_ok. by destruct (proj2 Hwf _ _ Hx). }
  destruct (id_range_dec j) as [Hin|Hout].
  - destruct (GetSlot_run j s Hwf Hin) as (y & Hy & Ey).
    destruct (GetSlot_run j s' Hwf' Hin) as (y' & Hy' & Ey').
    rewrite Hs, list_lookup_insert_ne in Hy' by lia.
    rewrite Hy in Hy'. injection Hy' as <-. eauto.
  - exists None. by rewrite !GetSlot_outside.
Qed.

(** X9.  The last descriptor wins: applying [m1] and then [m2] to the
    same slot of an open router leaves the same table, the same flags and
    the same reference counts as applying [m2] alone. *)
Theorem FillSlot_last_write_wins (m1 m2 : models.Slot) (s : Router) :
  reachable s -> closed s = false ->
  0 <= models.Id m1 < Z.of_nat MaxSlotNum ->
  models.Id m2 = models.Id m1 ->
  exists s1 s2 t,
    FillSlot m1 s = Done None s1 /\ FillSlot m2 s1 = Done None s2 /\
    FillSlot m2 s = Done None t /\
    slots s2 = slots t /\ online s2 = online t /\ closed s2 = closed t /\
    pool_primary s2 = pool_primary t /\ pool_replica s2 = pool_replica t.
Proof.
  intros Hr Hc Hi Hid. pose proof (reachable_wf s Hr) as Hwf.
  assert (Hi2 : 0 <= models.Id m2 < Z.of_nat MaxSlotNum) by lia.
  destruct (FillSlot_run m1 s Hwf Hc Hi) as (x & s1 & Hx & E1 & Hs1 & Ho1 & Hc1).
  assert (Hr1 : reachable s1).
  { eapply later_reachable; [exact Hr|]. apply (later_step (OpFillSlot m1)).
    simpl. unfold bind. by rewrite E1. }
  destruct (FillSlot_run m2 s1 (reachable_wf s1 Hr1) Hc1 Hi2)
    as (y & s2 & Hy & E2 & Hs2 & Ho2 & Hc2).
  destruct (FillSlot_run m2 s Hwf Hc Hi2) as (x' & t & Hx' & E3 & Hs3 & Ho3 & Hc3).
  assert (Hr2 : reachable s2).
  { eapply later_reachable; [exact Hr1|]. apply (later_step (OpFillSlot m2)).
    simpl. unfold bind. by rewrite E2. }
  assert (Hrt : reachable t).
  { eapply later_reachable; [exact Hr|]. apply (later_step (OpFillSlot m2)).
    simpl. unfold bind. by rewrite E3. }
  assert (Hst : slots s2 = slots t).
  { rewrite Hs2, Hs3, Hs1, Hid in *.
    rewrite list_lookup_insert_eq in Hy by (by eapply lookup_lt_Some).
    injection Hy as <-. rewrite Hx in Hx'. injection Hx' as <-.
    by rewrite list_insert_insert_eq, filled_filled. }
  exists s1, s2, t. repeat (split; [done|]).
  split; [congruence|]. split; [congruence|].
  apply (counted_pools_eq s2 t); auto using reachable_counted.
Qed.

(** ** Invariants of the slots *)

(** A property of the empty slot that every refill establishes holds for
    all slots in every reachable state. *)
Lemma run_op_slotwise (Q : Slot -> Prop) o s s' :
  (forall i, Q (emptySlot i)) ->
  (forall x m sw, Q (filled x m sw)) ->
  wf s -> Forall Q (slots s) ->
  run_op o s = Done tt s' -> Forall Q (slots s').
Proof.
  intros Qe Qf Hwf HQ. destruct (closed s) eqn:Hc.
  { intros H. apply (run_op_closed o s s' Hc) in H as (Hs & _). by rewrite Hs. }
  destruct o as [| |m|masters|r]; simpl.
  - rewrite Start_run, Hc. by intros [= <-].
  - destruct (Close_run s Hwf Hc) as (s1 & E & _ & _ & Hs). rewrite E.
    intros [= <-]. rewrite Hs. by apply emptySlots_Forall.
  - unfold bind. destruct (id_range_dec (models.Id m)) as [Hi|Hi].
    + destruct (FillSlot_run m s Hwf Hc Hi) as (x & s1 & Hx & E & Hs & _).
      rewrite E. intros [= <-]. rewrite Hs. by apply Forall_insert.
    + rewrite (FillSlot_invalid m s Hc Hi). by intros [= <-].
  - unfold bind.
    destruct (SwitchMasters_map masters s Hwf Hc) as (s1 & E & Hs & _).
    rewrite E. intros [= <-]. rewrite Hs. apply Forall_fmap.
    eapply Forall_impl; [exact HQ|]. intros x Hx. simpl. unfold switchedSlot.
    destruct (switchPlan masters (snapshot x false)) as [m [|]]; auto.
  - unfold bind. destruct (dispatch r s) as [e s1|] eqn:E; [|done].
    intros [= <-]. apply dispatch_frame in E as (Hs & _). by rewrite Hs.
Qed.

Lemma reachable_slotwise (Q : Slot -> Prop) s :
  (forall i, Q (emptySlot i)) ->
  (forall x m sw, Q (filled x m sw)) ->
  reachable s -> Forall Q (slots s).
Proof.
  intros Qe Qf [ops H].
  cut (wf s /\ Forall Q (slots s)); [tauto|]. revert H.
  apply (run_invariant (fun t => wf t /\ Forall Q (slots t))).
  - intros o t t' [Hwf HQ] E. eauto using run_op_wf, run_op_slotwise.
  - split; [apply wf_NewRouter | by apply emptySlots_Forall].
Qed.

Lemma installedGroups_nonempty groups :
  Forall (fun g => g <> []) (installedGroups groups).
Proof.
  unfold installedGroups. apply Forall_forall. intros g Hg.
  apply list_elem_of_In, filter_In in Hg as [_ Hg]. by destruct g.
Qed.

(** X13.  In every reachable state the snapshot [GetSlot] returns for a
    valid id carries that id, has group id 0 wherever it has no address,
    and has no empty replica group. *)
Theorem GetSlot_snapshot_invariants (i : Z) (s : Router) :
  reachable s -> 0 <= i < Z.of_nat MaxSlotNum ->
  exists v, GetSlot i s = Done (Some v) s /\
    models.Id v = i /\
    (models.BackendAddr v = "" -> models.BackendAddrGroupId v = 0) /\
    (models.MigrateFrom v = "" -> models.MigrateFromGroupId v = 0) /\
    Forall (fun g => g <> []) (models.ReplicaGroups v).
Proof.
  intros Hr Hi. pose proof (reachable_wf s Hr) as Hwf.
  destruct (GetSlot_run i s Hwf Hi) as (x & Hx & E).
  exists (snapshot x true). split; [done|].
  destruct (proj2 Hwf _ _ Hx) as (Hid & Hb & Hm). simpl.
  split; [lia|]. unfold target_ok in Hb, Hm. split; [|split].
  - destruct (bc (backend x)) as [c|]; simpl; [|done].
    intros Ha. rewrite Ha in Hb. discriminate Hb.
  - destruct (bc (migrate x)) as [c|]; simpl; [|done].
    intros Ha. rewrite Ha in Hm. discriminate Hm.
  - assert (HQ : Forall (fun y => Forall (fun g => g <> []) (replicaGroups y)) (slots s)).
    { apply reachable_slotwise; [by constructor| |done].
      intros y m sw. destruct (filled_fields y m sw) as (_ & _ & _ & _ & ->).
      apply installedGroups_nonempty. }
    rewrite Forall_lookup in HQ. specialize (HQ _ _ Hx).
    apply Forall_fmap. eapply Forall_impl; [exact HQ|].
    intros g Hg. simpl. by destruct g.
Qed.

(** ** The whole table at once *)

Lemma collectSlots_run (table : list Slot) (n : nat) :
  forall (a : nat) (out : list (option models.Slot)),
    (a + n <= length table)%nat -> length out = length table ->
    exists out', collectSlots (seq a n) table out = Some out' /\
      length out' = length table /\
      forall (i : nat),
        out' !! i = if decide (a <= i < a + n)%nat
                    then (fun x => Some (snapshot x true)) <$> table !! i
                    else out !! i.
Proof.
  induction n as [|n IH]; intros a out Hle Hlen; simpl.
  - exists out. repeat split; [done|]. intros i. rewrite decide_False by lia. done.
  - destruct (lookup_lt_is_Some_2 table a) as [x Hx]; [lia|]. rewrite Hx.
    rewrite decide_True by lia.
    destruct (IH (S a) (<[a := Some (snapshot x true)]> out)) as (out' & E & Hl & Hout).
    { lia. } { by rewrite length_insert. }
    exists out'. repeat split; [done..|]. intros i. rewrite Hout.
    destruct (decide (a = i)) as [<-|Hne].
    + rewrite decide_False, decide_True by lia.
      rewrite list_lookup_insert_eq by lia. by rewrite Hx.
    + rewrite list_lookup_insert_ne by done.
      destruct (decide (S a <= i < S a + n)%nat);
        [rewrite decide_True by lia | rewrite decide_False by lia]; done.
Qed.

(** X10.  In every reachable state [GetSlots] returns, without touching
    the router, [MaxSlotNum] snapshots, none of them nil, and the one at
    index [i] is the snapshot [GetSlot i] returns. *)
Theorem GetSlots_agrees_with_GetSlot (s : Router) :
  reachable s ->
  exists out, GetSlots MaxSlotNum s = Done out s /\ length out = MaxSlotNum /\
    forall i, 0 <= i < Z.of_nat MaxSlotNum ->
      exists v, out !! Z.to_nat i = Some (Some v) /\ GetSlot i s = Done (Some v) s.
Proof.
  intros Hr. pose proof (reachable_wf s Hr) as Hwf. destruct Hwf as [Hlen Hok].
  destruct (collectSlots_run (slots s) (length (slots s)) 0 (replicate MaxSlotNum None))
    as (out & E & Hl & Hout); [lia | by rewrite length_replicate |].
  exists out. unfold GetSlots. rewrite E. split; [done|]. split; [congruence|].
  intros i Hi.
  destruct (GetSlot_run i s (conj Hlen Hok) Hi) as (x & Hx & Eg).
  exists (snapshot x true). split; [|done].
  rewrite Hout, decide_True by lia. by rewrite Hx.
Qed.

Lemma addGroup_lookup g h groups :
  addGroup g groups !! h = Some true <->
  groups !! h = Some true \/ (g = h /\ h <> 0).
Proof.
  unfold addGroup. destruct (Z.eqb_spec g 0) as [->|Hg].
  - split; [auto | intros [?|[<- ?]]; done].
  - destruct (decide (g = h)) as [<-|Hne].
    + rewrite lookup_insert_eq. split; auto.
    + rewrite lookup_insert_ne by done. split; [auto | intros [?|[? ?]]; done].
Qed.

Lemma addGroup_true g h groups v :
  (forall w, groups !! h = Some w -> w = true) ->
  addGroup g groups !! h = Some v -> v = true.
Proof.
  unfold addGroup. intros H. destruct (g =? 0); [apply H|].
  destruct (decide (g = h)) as [<-|Hne].
  - rewrite lookup_insert_eq. by intros [= <-].
  - rewrite lookup_insert_ne by done. apply H.
Qed.

Lemma addGroups_fold (l : list Slot) : forall groups h,
  fold_left addGroups l groups !! h = Some true <->
  groups !! h = Some true \/
  (h <> 0 /\ exists x, In x l /\ (gid (backend x) = h \/ gid (migrate x) = h)).
Proof.
  induction l as [|x l IH]; intros groups h; simpl.
  - split; [auto | intros [?|(_ & y & [] & _)]; done].
  - rewrite IH. unfold addGroups at 1. rewrite !addGroup_lookup. split.
    + intros [[[?|[? ?]]|[? ?]]|(? & y & ? & ?)]; eauto 10.
    + intros [?|(? & y & [<-|?] & [?|?])]; eauto 10.
Qed.

Lemma addGroups_fold_true (l : list Slot) : forall groups h v,
  (forall w, groups !! h = Some w -> w = true) ->
  fold_left addGroups l groups !! h = Some v -> v = true.
Proof.
  induction l as [|x l IH]; intros groups h v H; simpl; [apply H|].
  apply IH. intros w. unfold addGroups.
  apply addGroup_true. intros w'. by apply addGroup_true.
Qed.

(** X11.  [GetGroupIds] returns, without touching the router, a map that
    holds [true] for exactly the non-zero group ids of the backend and
    migrate fields of the table, and holds [false] for none; in a
    reachable state each id it reports belongs to a field that has a
    connection. *)
Theorem GetGroupIds_reports_live_groups (s : Router) :
  reachable s ->
  exists groups, GetGroupIds s = Done groups s /\
    forall g,
      groups !! g <> Some false /\
      (groups !! g = Some true <->
       g <> 0 /\ exists x, x ∈ slots s /\
                   (gid (backend x) = g \/ gid (migrate x) = g)) /\
      (groups !! g = Some true ->
       exists x, x ∈ slots s /\
         ((gid (backend x) = g /\ bc (backend x) <> None) \/
          (gid (migrate x) = g /\ bc (migrate x) <> None))).
Proof.
  intros Hr. eexists. split; [reflexivity|]. intros g.
  fold addGroups.
  assert (Hiff : fold_left addGroups (slots s) ∅ !! g = Some true <->
                 g <> 0 /\ exists x, x ∈ slots s /\
                   (gid (backend x) = g \/ gid (migrate x) = g)).
  { rewrite addGroups_fold, lookup_empty. split.
    - intros [?|(? & x & Hx & ?)]; [done|]. split; [done|].
      exists x. by rewrite list_elem_of_In.
    - intros (? & x & Hx & ?). right. split; [done|].
      exists x. by rewrite <- list_elem_of_In. }
  split; [|split; [exact Hiff|]].
  - intros H. apply addGroups_fold_true in H; [done|].
    intros w. by rewrite lookup_empty.
  - intros H. apply Hiff in H as (Hg & x & Hx & Hgid).
    exists x. split; [done|].
    apply list_elem_of_lookup in Hx as [i Hi].
    destruct (proj2 (reachable_wf s Hr) i x Hi) as (_ & Hb & Hm).
    unfold target_ok in Hb, Hm.
    destruct Hgid as [Hgid|Hgid]; [left | right]; (split; [done|]).
    + destruct (bc (backend x)); [done | congruence].
    + destruct (bc (migrate x)); [done | congruence].
Qed.

(** ** The life cycle *)

Lemma run_op_flags o s s' :
  wf s -> run_op o s = Done tt s' ->
  closed s' = closed s || isClose o /\
  (closed s' = false -> online s' = online s || isStart o).
Proof.
  intros Hwf. destruct (closed s) eqn:Hc.
  { intros H. apply (run_op_closed o s s' Hc) in H as (_ & _ & ->).
    rewrite Hc. by split. }
  destruct o as [| |m|masters|r]; simpl.
  - rewrite Start_run, Hc. intros [= <-]. simpl. rewrite Hc.
    split; [done|]. intros _. by rewrite orb_true_r.
  - destruct (Close_run s Hwf Hc) as (s1 & E & Hc1 & _). rewrite E.
    intros [= <-]. rewrite Hc1. by split.
  - unfold bind. destruct (id_range_dec (models.Id m)) as [Hi|Hi].
    + destruct (FillSlot_run m s Hwf Hc Hi) as (x & s1 & _ & E & _ & Ho & Hc1).
      rewrite E. intros [= <-]. rewrite Hc1, Ho, orb_false_r. by split.
    + rewrite (FillSlot_invalid m s Hc Hi). intros [= <-].
      rewrite Hc, !orb_false_r. by split.
  - unfold bind.
    destruct (SwitchMasters_open masters s Hwf Hc) as (s1 & E & _ & Hc1 & Ho & _).
    rewrite E. intros [= <-]. rewrite Hc1, Ho, orb_false_r. by split.
  - unfold bind. destruct (dispatch r s) as [e s1|] eqn:E; [|done].
    intros [= <-]. apply dispatch_frame in E as (_ & Ho & Hc1).
    rewrite Hc1, Ho, Hc, !orb_false_r. by split.
Qed.

Lemma run_flags ops : forall s s',
  wf s -> run ops s = Done tt s' ->
  closed s' = closed s || existsb isClose ops /\
  (closed s' = false -> online s' = online s || existsb isStart ops).
Proof.
  induction ops as [|o ops IH]; intros s s' Hwf; simpl.
  - intros [= <-]. rewrite !orb_false_r. by split.
  - unfold bind. destruct (run_op o s) as [[] s1|] eqn:E; [|done]. intros H.
    destruct (run_op_flags o s s1 Hwf E) as [Hc1 Ho1].
    destruct (IH s1 s' (run_op_wf o s s1 Hwf E) H) as [Hc Ho].
    split.
    + by rewrite Hc, Hc1, orb_assoc.
    + intros Hf. rewrite (Ho Hf). rewrite Hf in Hc. symmetry in Hc.
      apply orb_false_elim in Hc as [Hc _].
      by rewrite (Ho1 Hc), orb_assoc.
Qed.

(** X12.  The flags of a router are decided by which operations it has
    seen: it is closed exactly when [Close] was called, and [isOnline]
    holds exactly when [Start] was called and [Close] never was. *)
Theorem lifecycle_by_history (ops : list op) (s : Router) :
  run ops NewRouter = Done tt s ->
  closed s = existsb isClose ops /\
  isOnline s = existsb isStart ops && negb (existsb isClose ops).
Proof.
  intros H. destruct (run_flags ops NewRouter s wf_NewRouter H) as [Hc Ho].
  simpl in Hc, Ho. split; [done|]. unfold isOnline. rewrite Hc in *.
  destruct (existsb isClose ops); simpl.
  - by rewrite !andb_false_r.
  - by rewrite Ho, !andb_true_r.
Qed.

(** ** Dispatch to a given slot *)

(** X14.  [dispatchSlot] rejects an id outside [0, MaxSlotNum) with
    [ErrInvalidSlotId] and touches nothing.  For a valid id it forwards to
    that slot without a hash key: a slot that is not ready gives
    [SlotNotReady] and nothing happens; otherwise the one effect is the
    push of the request onto that slot's backend, with no is-migrated
    check even while the slot is migrating. *)
Theorem dispatchSlot_by_id (r : Request) (i : Z) (s : Router) :
  (i < 0 \/ Z.of_nat MaxSlotNum <= i ->
   dispatchSlot MaxSlotNum r i s = Done (Some ErrInvalidSlotId) s) /\
  (reachable s -> 0 <= i < Z.of_nat MaxSlotNum ->
   exists x, slots s !! Z.to_nat i = Some x /\
     (bc (backend x) = None \/ hold x = true ->
      dispatchSlot MaxSlotNum r i s = Done (Some SlotNotReady) s) /\
     (forall b, hold x = false -> bc (backend x) = Some b ->
      dispatchSlot MaxSlotNum r i s = Done None (record (EvPushBack b r) s))).
Proof.
  split.
  - intros Hi. unfold dispatchSlot.
    destruct (Z.ltb_spec i 0); [done|].
    destruct (Z.geb_spec i (Z.of_nat MaxSlotNum)); [done|]. lia.
  - intros Hr Hi.
    destruct (wf_lookup s i (reachable_wf s Hr) Hi) as (x & Hx & _).
    exists x. split; [done|].
    assert (E : dispatchSlot MaxSlotNum r i s = forward x r [] s).
    { unfold dispatchSlot.
      destruct (Z.ltb_spec i 0); [lia|].
      destruct (Z.geb_spec i (Z.of_nat MaxSlotNum)); [lia|]. simpl.
      unfold bind, slotRef. destruct (Z.ltb_spec i 0); [lia|]. by rewrite Hx. }
    rewrite E. split.
    + apply forward_not_ready.
    + intros b Hh Hb. unfold forward. rewrite Hh, Hb.
      by destruct (bc (migrate x)).
Qed.

(** ** Reconfiguration pushes nothing *)

Lemma quiet_ret {A} (a : A) : quiet (ret a).
Proof. by intros s b s' [= _ <-]. Qed.

Lemma quiet_bind {A B} (c : M A) (k : A -> M B) :
  quiet c -> (forall a, quiet (k a)) -> quiet (bind c k).
Proof.
  intros Hc Hk s b s'. unfold bind.
  destruct (c s) as [a s1|] eqn:E; [|done].
  intros E'. rewrite (Hk a s1 b s' E'). by apply (Hc s a s1).
Qed.

Lemma quiet_modify (f : Router -> Router) :
  (forall s, pushes (events (f s)) = pushes (events s)) -> quiet (modify f).
Proof. intros H s [] s' [= <-]. apply H. Qed.

Lemma quiet_forM_ {A} (l : list A) (f : A -> M unit) :
  (forall a, quiet (f a)) -> quiet (forM_ l f).
Proof.
  intros Hf. induction l as [|a l IH]; simpl; [apply quiet_ret|].
  apply quiet_bind; auto.
Qed.

Lemma pushes_pool p f s : pushes (events (set_pool p f s)) = pushes (events s).
Proof. by destruct p. Qed.

Lemma quiet_Retain p a : quiet (Retain p a).
Proof.
  unfold Retain. apply quiet_bind; [apply quiet_modify, pushes_pool|]. intros _.
  apply quiet_bind; [|intros _; apply quiet_ret].
  apply quiet_modify. intros s. unfold pushes. simpl.
  rewrite flat_map_app. simpl. apply app_nil_r.
Qed.

Lemma quiet_Release o : quiet (Release o).
Proof.
  destruct o as [c|]; simpl; [|apply quiet_ret].
  apply quiet_bind; [apply quiet_modify, pushes_pool|]. intros _.
  apply quiet_modify. intros s. unfold pushes. simpl.
  rewrite flat_map_app. simpl. apply app_nil_r.
Qed.

Lemma quiet_retainGroup addrs : forall group, quiet (retainGroup addrs group).
Proof.
  induction addrs as [|a addrs IH]; intros group; simpl; [apply quiet_ret|].
  apply quiet_bind; [apply quiet_Retain | auto].
Qed.

Lemma quiet_retainGroups groups : forall x, quiet (retainGroups groups x).
Proof.
  induction groups as [|addrs groups IH]; intros x; simpl; [apply quiet_ret|].
  apply quiet_bind; [apply quiet_retainGroup|]. intros group.
  by destruct (nonempty group).
Qed.

Lemma quiet_slotRef i : quiet (slotRef i).
Proof. intros s x s' E. by apply slotRef_same in E as ->. Qed.

Lemma quiet_fillSlot m sw : quiet (fillSlot m sw).
Proof.
  unfold fillSlot. apply quiet_bind; [apply quiet_slotRef|]. intros x. cbv zeta.
  apply quiet_bind.
  - unfold refill. apply quiet_bind; [apply quiet_Release|]. intros _. cbv zeta.
    apply quiet_bind; [apply quiet_Release|]. intros _.
    apply quiet_bind.
    { unfold releaseGroups. apply quiet_forM_. intros g.
      apply quiet_forM_. intros c. apply quiet_Release. }
    intros _. apply quiet_bind.
    { destruct (is_set (models.BackendAddr m)); [|apply quiet_ret].
      apply quiet_bind; [apply quiet_Retain | intros c; apply quiet_ret]. }
    intros y. apply quiet_bind; [|intros z; apply quiet_retainGroups].
    destruct (is_set (models.MigrateFrom m)); [|apply quiet_ret].
    apply quiet_bind; [apply quiet_Retain | intros c; apply quiet_ret].
  - intros y. unfold storeSlot. by apply quiet_modify.
Qed.

Lemma quiet_get : quiet get.
Proof. by intros s a s' [= _ <-]. Qed.

(** X15.  Reconfiguration sends nothing: [Start], [Close], [FillSlot] and
    [SwitchMasters], from any state and whatever they return, leave the
    sequence of requests pushed onto connections as it was. *)
Theorem reconfiguration_pushes_nothing (o : op) (s s' : Router) :
  (forall r, o <> OpDispatch r) ->
  run_op o s = Done tt s' ->
  pushes (events s') = pushes (events s).
Proof.
  intros Hd. assert (Hq : quiet (run_op o)); [|apply Hq].
  destruct o as [| |m|masters|r]; simpl.
  - unfold Start. apply quiet_bind; [apply quiet_get|]. intros t.
    destruct (closed t); [apply quiet_ret | by apply quiet_modify].
  - unfold Close. apply quiet_bind; [apply quiet_get|]. intros t.
    destruct (closed t); [apply quiet_ret|].
    apply quiet_bind; [by apply quiet_modify|]. intros _.
    apply quiet_forM_. intros i. apply quiet_fillSlot.
  - apply quiet_bind; [|intros e; apply quiet_ret].
    unfold FillSlot. apply quiet_bind; [apply quiet_get|]. intros t.
    destruct (closed t); [apply quiet_ret|].
    destruct (_ || _); [apply quiet_ret|].
    apply quiet_bind; [apply quiet_fillSlot | intros _; apply quiet_ret].
  - apply quiet_bind; [|intros e; apply quiet_ret].
    unfold SwitchMasters. apply quiet_bind; [apply quiet_get|]. intros t.
    destruct (closed t); [apply quiet_ret|].
    apply quiet_bind; [|intros _; apply quiet_ret].
    apply quiet_forM_. intros i. unfold trySwitchMaster.
    apply quiet_bind; [apply quiet_slotRef|]. intros x.
    destruct (switchPlan masters (snapshot x false)) as [m' [|]]; simpl;
      [apply quiet_fillSlot | apply quiet_ret].
  - by destruct (Hd r).
Qed.

(** ** The history of retains and releases *)

Lemma traces_ret {A} (a : A) : traces (ret a) [].
Proof. intros s b s' [= _ <-]. by rewrite app_nil_r. Qed.

Lemma traces_bind {A B} (c : M A) (k : A -> M B) l1 l2 :
  traces c l1 -> (forall a, traces (k a) l2) -> traces (bind c k) (l1 ++ l2).
Proof.
  intros Hc Hk s b s'. unfold bind.
  destruct (c s) as [a s1|] eqn:E; [|done].
  intros E'. rewrite (Hk a s1 b s' E'), (Hc s a s1 E). by rewrite app_assoc.
Qed.

Lemma traces_bind_dep {A B} (c : M A) (k : A -> M B) (a : A) l1 l2 :
  (forall s b s', c s = Done b s' -> b = a) ->
  traces c l1 -> traces (k a) l2 -> traces (bind c k) (l1 ++ l2).
Proof.
  intros Ha Hc Hk s b s'. unfold bind.
  destruct (c s) as [a' s1|] eqn:E; [|done].
  rewrite (Ha s a' s1 E). intros E'.
  rewrite (Hk s1 b s' E'), (Hc s a' s1 E). by rewrite app_assoc.
Qed.

Lemma traces_Retain p a : traces (Retain p a) [EvRetain p a].
Proof. intros s c s' [= _ <-]. by destruct p. Qed.

Lemma traces_Release o : traces (Release o) (map evRelease (conn_of o)).
Proof.
  destruct o as [[p a]|]; simpl; [|apply traces_ret].
  intros s [] s' [= <-]. by destruct p.
Qed.

Lemma traces_release_list l :
  traces (forM_ l (fun c => Release (Some c))) (map evRelease l).
Proof.
  induction l as [|c l IH]; simpl; [apply traces_ret|].
  apply (traces_bind _ _ [evRelease c]); [apply (traces_Release (Some c)) | done].
Qed.

Lemma traces_releaseGroups g :
  traces (releaseGroups g) (map evRelease (concat g)).
Proof.
  unfold releaseGroups. induction g as [|group g IH]; simpl; [apply traces_ret|].
  rewrite map_app. apply traces_bind; [apply traces_release_list | done].
Qed.

Lemma retainGroup_result addrs : forall group s b s',
  retainGroup addrs group s = Done b s' -> b = group ++ map (mkConn replica) addrs.
Proof.
  intros group s b s' E.
  destruct (retainGroup_frame addrs group s) as (t & Et & _).
  rewrite Et in E. by injection E as <- _.
Qed.

Lemma traces_retainGroup addrs : forall group,
  traces (retainGroup addrs group) (map evRetain (map (mkConn replica) addrs)).
Proof.
  induction addrs as [|a addrs IH]; intros group; simpl; [apply traces_ret|].
  apply (traces_bind _ _ [EvRetain replica a]); [apply traces_Retain | auto].
Qed.

Lemma concat_installedGroups_cons addrs groups :
  concat (installedGroups (addrs :: groups))
  = map (mkConn replica) addrs ++ concat (installedGroups groups).
Proof.
  unfold installedGroups. simpl.
  by destruct (map (mkConn replica) addrs).
Qed.

Lemma traces_retainGroups groups : forall x,
  traces (retainGroups groups x) (map evRetain (concat (installedGroups groups))).
Proof.
  induction groups as [|addrs groups IH]; intros x; simpl; [apply traces_ret|].
  rewrite concat_installedGroups_cons, map_app.
  apply (traces_bind_dep _ _ (map (mkConn replica) addrs)).
  - intros s b s' E. by apply retainGroup_result in E.
  - apply traces_retainGroup.
  - destruct (nonempty (map (mkConn replica) addrs)); apply IH.
Qed.

(** The history of one [fillSlot]: the releases of what the slot held,
    then the retains of what the descriptor names. *)
Lemma traces_fillSlot m sw s (i : nat) x :
  models.Id m = Z.of_nat i -> slots s !! i = Some x ->
  forall s', fillSlot m sw s = Done tt s' ->
    events s' = events s ++ map evRelease (slotConns x)
                         ++ map evRetain (slotConns (filled x m sw)).
Proof.
  intros Hi Hx s'. unfold fillSlot.
  rewrite Hi, (bind_Done _ _ _ _ _ (slotRef_run i s x Hx)). cbv zeta.
  assert (Ht : traces (refill (blockAndWait x) m sw)
                 (map evRelease (slotConns x)
                  ++ map evRetain (slotConns (filled x m sw)))).
  { unfold refill, slotConns. cbv zeta.
    cbn [migrate set_backend replicaGroups set_migrate blockAndWait set_hold
         backend bc].
    rewrite !map_app, <- !app_assoc.
    apply traces_bind; [apply traces_Release|]. intros _.
    apply traces_bind; [apply traces_Release|]. intros _.
    apply traces_bind; [apply traces_releaseGroups|]. intros _.
    destruct (filled_fields x m sw) as (_ & _ & -> & -> & ->).
    unfold installedTarget.
    apply traces_bind.
    { destruct (is_set (models.BackendAddr m)); simpl; [|apply traces_ret].
      apply (traces_bind _ _ [_] []); [apply traces_Retain | intros c; apply traces_ret]. }
    intros y. apply traces_bind; [|intros z; apply traces_retainGroups].
    destruct (is_set (models.MigrateFrom m)); simpl; [|apply traces_ret].
    apply (traces_bind _ _ [_] []); [apply traces_Retain | intros c; apply traces_ret]. }
  unfold bind. destruct (refill (blockAndWait x) m sw s) as [y s1|] eqn:E; [|done].
  unfold storeSlot, modify. intros [= <-]. simpl. by apply (Ht s y s1).
Qed.

(** X16.  [FillSlot] on an open router and a valid id first releases
    every connection the slot held (backend, migration source, replicas,
    in that order) and only then retains the connections of the new slot,
    also when an address stays the same; it adds nothing else to the
    history. *)
Theorem FillSlot_releases_then_retains (m : models.Slot) (s : Router) :
  reachable s -> closed s = false ->
  0 <= models.Id m < Z.of_nat MaxSlotNum ->
  exists x x' s',
    slots s !! Z.to_nat (models.Id m) = Some x /\
    FillSlot m s = Done None s' /\
    slots s' !! Z.to_nat (models.Id m) = Some x' /\
    events s' = events s ++ map evRelease (slotConns x)
                         ++ map evRetain (slotConns x').
Proof.
  intros Hr Hc Hi. pose proof (reachable_wf s Hr) as Hwf.
  destruct (FillSlot_run m s Hwf Hc Hi) as (x & s' & Hx & E & Hs & _).
  exists x, (filled x m false), s'. split; [done|]. split; [done|]. split.
  { rewrite Hs. apply list_lookup_insert_eq. by eapply lookup_lt_Some. }
  revert E. unfold FillSlot, bind at 1, get. rewrite Hc.
  destruct (Z.ltb_spec (models.Id m) 0); [lia|].
  destruct (Z.geb_spec (models.Id m) (Z.of_nat MaxSlotNum)); [lia|]. simpl.
  unfold bind. destruct (fillSlot m false s) as [[] t|] eqn:Ef; [|done].
  intros [= <-].
  apply (traces_fillSlot m false s (Z.to_nat (models.Id m)) x); [lia | done | done].
Qed.

(** X17.  [Close] releases every connection the table holds, each place
    once and in the order of the table, and retains nothing: these
    releases are all it adds to the history. *)
Theorem Close_releases_what_is_held (s : Router) :
  reachable s ->
  exists s', Close s = Done tt s' /\
             events s' = events s ++ map evRelease (held s).
Proof.
  intros Hr. pose proof (reachable_wf s Hr) as Hwf.
  destruct (closed s) eqn:Hc.
  { exists s. rewrite (Close_closed s Hc). split; [done|].
    unfold held. rewrite (reachable_drained s Hr Hc).
    assert (flat_map slotConns (map emptySlot (seq 0 MaxSlotNum)) = []) as ->.
    { induction (seq 0 MaxSlotNum) as [|i l IH]; [done | exact IH]. }
    by rewrite app_nil_r. }
  unfold Close, bind at 1, get. rewrite Hc. unfold bind at 1, modify at 1.
  pose (P := fun (k : nat) (t : Router) =>
    (forall (j : nat), (k <= j)%nat -> slots t !! j = slots s !! j) /\
    events t = events s ++ map evRelease (flat_map slotConns (take k (slots s)))).
  destruct (forM__range P (fun i => fillSlot (emptyDescriptor i) false)
              (length (slots s)) 0%nat (set_closed true s)) as (s' & E & HP).
  - split; [done|]. simpl. by rewrite app_nil_r.
  - intros k t Hk (Hsl & Hev).
    destruct (lookup_lt_is_Some_2 (slots s) k) as [x Hx]; [lia|].
    assert (Hxt : slots t !! k = Some x) by (by rewrite Hsl).
    destruct (fillSlot_run (emptyDescriptor (Z.of_nat k)) false t k x eq_refl Hxt)
      as (t' & Et & Hs' & _).
    exists t'. split; [done|]. split.
    + intros j Hj. rewrite Hs', list_lookup_insert_ne by lia. apply Hsl. lia.
    + rewrite (traces_fillSlot (emptyDescriptor (Z.of_nat k)) false t k x
                 eq_refl Hxt t' Et), Hev.
      rewrite (filled_empty k x) by (by destruct (proj2 Hwf k x Hx)).
      rewrite (take_S_r _ _ x Hx), flat_map_app, map_app. simpl.
      by rewrite !app_nil_r, <- app_assoc.
  - destruct HP as (_ & Hev). exists s'. unfold slotRange. split; [done|].
    simpl in Hev. by rewrite firstn_all in Hev.
Qed.

End RouterFacts.

(** * The model on concrete inputs *)

Lemma NewRouter_reachable n :
  reachable n exampleHash exampleGetHashKey (NewRouter n).
Proof. by exists []. Qed.

(** C1 fails as stated: a descriptor with group id 7 and no backend
    address is applied, and the snapshot reports group id 0. *)
Lemma FillSlot_GetSlot_exact_counterexample :
  ~ (exists s1 v,
       FillSlot 2 (models.mkSlot 0 false "" 7 "" 0 []) (NewRouter 2) = Done None s1 /\
       GetSlot 2 0 s1 = Done (Some v) s1 /\
       same_targets v (models.mkSlot 0 false "" 7 "" 0 [])).
Proof.
  intros (s1 & v & E1 & E2 & _ & H & _).
  vm_compute in E1. injection E1 as <-.
  vm_compute in E2. injection E2 as <-.
  discriminate H.
Qed.

Lemma FillSlot_then_GetSlot_witness :
  reachable 2 exampleHash exampleGetHashKey (NewRouter 2) /\
  closed (NewRouter 2) = false /\
  0 <= models.Id (exampleBackend 1) < Z.of_nat 2 /\
  exists s1 v,
    FillSlot 2 (exampleBackend 1) (NewRouter 2) = Done None s1 /\
    GetSlot 2 1 s1 = Done (Some v) s1 /\
    models.BackendAddr v = "10.0.0.1:6379" /\ models.BackendAddrGroupId v = 1.
Proof.
  assert (H1 : reachable 2 exampleHash exampleGetHashKey (NewRouter 2))
    by apply NewRouter_reachable.
  assert (H2 : closed (NewRouter 2) = false) by reflexivity.
  assert (H3 : 0 <= models.Id (exampleBackend 1) < Z.of_nat 2) by (simpl; lia).
  repeat (split; [assumption|]).
  destruct (FillSlot_then_GetSlot 2 exampleHash exampleGetHashKey
              (exampleBackend 1) (NewRouter 2) H1 H2 H3)
    as (s1 & v & x & E1 & E2 & Ha & Hg & _).
  exists s1, v. auto.
Defined.

(** C2 fails as stated: after [Close], [dispatch] does not fail with
    [ErrClosedRouter]. *)
Lemma dispatch_after_Close_counterexample :
  ~ (exists s', Close (NewRouter 2) = Done tt s' /\
       exists t, dispatch 2 exampleHash exampleGetHashKey exampleMGet s'
                 = Done (Some ErrClosedRouter) t).
Proof.
  intros (s' & E & t & Ed).
  vm_compute in E. injection E as <-.
  vm_compute in Ed. discriminate Ed.
Qed.

Lemma Close_drains_and_closes_witness :
  reachable 2 exampleHash exampleGetHashKey (NewRouter 2) /\
  exists s', Close (NewRouter 2) = Done tt s' /\ closed s' = true /\
    (forall x, x ∈ slots s' -> isEmpty x) /\
    FillSlot 2 (exampleBackend 0) s' = Done (Some ErrClosedRouter) s' /\
    dispatch 2 exampleHash exampleGetHashKey exampleMGet s'
      = Done (Some SlotNotReady) s'.
Proof.
  assert (H1 : reachable 2 exampleHash exampleGetHashKey (NewRouter 2))
    by apply NewRouter_reachable.
  split; [assumption|].
  destruct (Close_drains_and_closes 2 exampleHash exampleGetHashKey (NewRouter 2) H1)
    as (s' & E & Hc & Hl).
  exists s'. repeat (split; [assumption|]).
  destruct (Hl s') as (He & Hf & Hd); [by exists []|].
  split; [exact He|]. split; [apply Hf|]. apply Hd. lia.
Defined.

(** C3 fails as stated: [FillSlot] accepts a descriptor with a migration
    source and no backend, and the slot then has a migrate connection and
    no backend connection. *)
Lemma migrate_without_backend_counterexample :
  ~ (forall s,
       run 2 exampleHash exampleGetHashKey
           [OpFillSlot (models.mkSlot 0 false "" 0 "10.0.0.2:6379" 2 [])]
           (NewRouter 2) = Done tt s ->
       forall x, x ∈ slots s -> bc (migrate x) <> None -> bc (backend x) <> None).
Proof.
  intros H.
  destruct (run 2 exampleHash exampleGetHashKey
              [OpFillSlot (models.mkSlot 0 false "" 0 "10.0.0.2:6379" 2 [])]
              (NewRouter 2)) as [[] s|] eqn:E; [|vm_compute in E; discriminate E].
  specialize (H s eq_refl). vm_compute in E. injection E as <-.
  apply (H (mkSlotState 0 false false noTarget
              (mkTarget 2 (Some (mkConn primary "10.0.0.2:6379"))) [])).
  - apply list_elem_of_here.
  - discriminate.
  - reflexivity.
Qed.

Lemma migrate_implies_backend_witness :
  Forall op_names_backend
    [OpStart; OpFillSlot (models.mkSlot 0 false "10.0.0.1:6379" 1 "10.0.0.2:6379" 2 [])] /\
  forall s,
    run 2 exampleHash exampleGetHashKey
        [OpStart; OpFillSlot (models.mkSlot 0 false "10.0.0.1:6379" 1 "10.0.0.2:6379" 2 [])]
        (NewRouter 2) = Done tt s ->
    forall x, x ∈ slots s -> bc (migrate x) <> None -> bc (backend x) <> None.
Proof.
  assert (H1 : Forall op_names_backend
    [OpStart; OpFillSlot (models.mkSlot 0 false "10.0.0.1:6379" 1 "10.0.0.2:6379" 2 [])]).
  { repeat constructor. }
  split; [assumption|]. intros s E.
  exact (migrate_implies_backend 2 exampleHash exampleGetHashKey _ s H1 E).
Defined.

Lemma SwitchMasters_twice_no_churn_witness :
  reachable 2 exampleHash exampleGetHashKey (NewRouter 2) /\
  exists e s1 s2,
    SwitchMasters {[ 0 := "10.0.0.3:6379"%string ]} (NewRouter 2) = Done e s1 /\
    SwitchMasters {[ 0 := "10.0.0.3:6379"%string ]} s1 = Done e s2 /\
    events s2 = events s1.
Proof.
  assert (H1 : reachable 2 exampleHash exampleGetHashKey (NewRouter 2))
    by apply NewRouter_reachable.
  split; [assumption|].
  destruct (SwitchMasters_twice_no_churn 2 exampleHash exampleGetHashKey
              {[ 0 := "10.0.0.3:6379"%string ]} (NewRouter 2) H1)
    as (e & s1 & s2 & E1 & E2 & Hev & _).
  exists e, s1, s2. auto.
Defined.

(** C5 fails as stated: both slots have a backend, the keys [a] and [bb]
    of [MGET a bb] hash to different slots, and [dispatch] does not fail
    with [CrossShardRequest]. *)
Lemma dispatch_cross_slot_counterexample :
  ~ (crossSlot 2 exampleHash exampleMGet ->
     forall s,
       run 2 exampleHash exampleGetHashKey
           [OpFillSlot (exampleBackend 0); OpFillSlot (exampleBackend 1)]
           (NewRouter 2) = Done tt s ->
       exists t, dispatch 2 exampleHash exampleGetHashKey exampleMGet s
                 = Done (Some CrossShardRequest) t).
Proof.
  intros H.
  assert (Hx : crossSlot 2 exampleHash exampleMGet).
  { exists [Byte.x61], [Byte.x62; Byte.x62]. split; [|split].
    - apply list_elem_of_here.
    - apply list_elem_of_further, list_elem_of_here.
    - vm_compute. discriminate. }
  destruct (run 2 exampleHash exampleGetHashKey
              [OpFillSlot (exampleBackend 0); OpFillSlot (exampleBackend 1)]
              (NewRouter 2)) as [[] s|] eqn:E; [|vm_compute in E; discriminate E].
  destruct (H Hx s eq_refl) as (t & Ed).
  vm_compute in E. injection E as <-.
  vm_compute in Ed. discriminate Ed.
Qed.

Lemma dispatch_by_single_hash_key_witness :
  reachable 2 exampleHash exampleGetHashKey (NewRouter 2) /\
  (0 < 2)%nat /\
  exists x e s',
    slots (NewRouter 2) !! slotOf 2 exampleHash [Byte.x61] = Some x /\
    dispatch 2 exampleHash exampleGetHashKey exampleMGet (NewRouter 2) = Done e s' /\
    e <> Some CrossShardRequest.
Proof.
  assert (H1 : reachable 2 exampleHash exampleGetHashKey (NewRouter 2))
    by apply NewRouter_reachable.
  assert (H2 : (0 < 2)%nat) by lia.
  repeat (split; [assumption|]).
  destruct (dispatch_by_single_hash_key 2 exampleHash exampleGetHashKey
              exampleMGet (NewRouter 2) H1 H2)
    as (x & e & s' & Hx & E & Hne & _).
  exists x, e, s'. auto.
Defined.

Lemma FillSlot_failure_applies_nothing_witness :
  closed (NewRouter 2) = false /\
  (models.Id (exampleBackend 2) < 0 \/ Z.of_nat 2 <= models.Id (exampleBackend 2)) /\
  FillSlot 2 (exampleBackend 2) (NewRouter 2)
  = Done (Some ErrInvalidSlotId) (NewRouter 2).
Proof.
  assert (H1 : closed (NewRouter 2) = false) by reflexivity.
  assert (H2 : models.Id (exampleBackend 2) < 0
               \/ Z.of_nat 2 <= models.Id (exampleBackend 2)) by (right; simpl; lia).
  repeat (split; [assumption|]).
  exact (proj2 (FillSlot_failure_applies_nothing 2 (exampleBackend 2) (NewRouter 2))
               H1 H2).
Defined.

Lemma dispatch_slot_not_ready_witness :
  slots (NewRouter 2)
    !! slotOf 2 exampleHash (exampleGetHashKey (Multi exampleMGet) (OpStr exampleMGet))
  = Some (emptySlot 1) /\
  (bc (backend (emptySlot 1)) = None \/ hold (emptySlot 1) = true) /\
  dispatch 2 exampleHash exampleGetHashKey exampleMGet (NewRouter 2)
  = Done (Some SlotNotReady) (NewRouter 2).
Proof.
  assert (H1 : slots (NewRouter 2)
    !! slotOf 2 exampleHash (exampleGetHashKey (Multi exampleMGet) (OpStr exampleMGet))
    = Some (emptySlot 1)) by reflexivity.
  assert (H2 : bc (backend (emptySlot 1)) = None \/ hold (emptySlot 1) = true)
    by (left; reflexivity).
  repeat (split; [assumption|]).
  exact (dispatch_slot_not_ready 2 exampleHash exampleGetHashKey exampleMGet
           (NewRouter 2) (emptySlot 1) H1 H2).
Defined.

Lemma fillSlot_gate_follows_Locked_witness :
  models.Id (models.mkSlot 1 true "10.0.0.1:6379" 1 "" 0 []) = Z.of_nat 1 /\
  slots (NewRouter 2) !! 1%nat = Some (emptySlot 1) /\
  exists s' y,
    fillSlot (models.mkSlot 1 true "10.0.0.1:6379" 1 "" 0 []) false (NewRouter 2)
    = Done tt s' /\
    slots s' !! 1%nat = Some y /\ hold y = true.
Proof.
  assert (H1 : models.Id (models.mkSlot 1 true "10.0.0.1:6379" 1 "" 0 []) = Z.of_nat 1)
    by reflexivity.
  assert (H2 : slots (NewRouter 2) !! 1%nat = Some (emptySlot 1)) by reflexivity.
  repeat (split; [assumption|]).
  destruct (fillSlot_gate_follows_Locked
              (models.mkSlot 1 true "10.0.0.1:6379" 1 "" 0 []) false
              (NewRouter 2) 1 (emptySlot 1) H1 H2)
    as (_ & _ & s' & y & E & Hy & Hh).
  exists s', y. split; [assumption|]. split; [assumption|].
  apply Hh. reflexivity.
Defined.

(** C9 fails as stated: on a router that was started and then closed,
    [Start] leaves [online] true. *)
Lemma Start_after_Close_counterexample :
  ~ (forall s,
       run 2 exampleHash exampleGetHashKey [OpStart; OpClose] (NewRouter 2)
       = Done tt s ->
       exists s', Start s = Done tt s' /\ online s' = false /\ closed s' = true).
Proof.
  intros H.
  destruct (run 2 exampleHash exampleGetHashKey [OpStart; OpClose] (NewRouter 2))
    as [[] s|] eqn:E; [|vm_compute in E; discriminate E].
  destruct (H s eq_refl) as (s' & Es & Ho & _).
  vm_compute in E. injection E as <-.
  vm_compute in Es. injection Es as <-.
  discriminate Ho.
Qed.

Lemma closed_router_never_online_witness :
  reachable 2 exampleHash exampleGetHashKey (NewRouter 2) /\
  exists s', Close (NewRouter 2) = Done tt s' /\ closed s' = true /\
             Start s' = Done tt s' /\ isOnline s' = false.
Proof.
  assert (H1 : reachable 2 exampleHash exampleGetHashKey (NewRouter 2))
    by apply NewRouter_reachable.
  split; [assumption|].
  destruct (closed_router_never_online 2 exampleHash exampleGetHashKey
              (NewRouter 2) H1) as (s' & E & Hc & _ & Hl).
  exists s'. repeat (split; [assumption|]).
  destruct (Hl s') as (Hs & _ & _ & Hon); [by exists []|]. auto.
Defined.

Lemma GetSlot_nil_outside_range_witness :
  reachable 2 exampleHash exampleGetHashKey (exampleAfter exampleHistory) /\
  GetSlot 2 2 (exampleAfter exampleHistory) = Done None (exampleAfter exampleHistory) /\
  GetSlot 2 (-1) (exampleAfter exampleHistory) = Done None (exampleAfter exampleHistory) /\
  exists x, slots (exampleAfter exampleHistory) !! Z.to_nat 1 = Some x /\ id x = 1 /\
            GetSlot 2 1 (exampleAfter exampleHistory)
            = Done (Some (snapshot x true)) (exampleAfter exampleHistory).
Proof.
  assert (H1 : reachable 2 exampleHash exampleGetHashKey (exampleAfter exampleHistory)).
  { exists exampleHistory. vm_compute. reflexivity. }
  split; [assumption|].
  split; [|split].
  - apply (GetSlot_nil_outside_range 2 exampleHash exampleGetHashKey 2
             (exampleAfter exampleHistory) H1).
    right. simpl. lia.
  - apply (GetSlot_nil_outside_range 2 exampleHash exampleGetHashKey (-1)
             (exampleAfter exampleHistory) H1).
    left. lia.
  - apply (GetSlot_nil_outside_range 2 exampleHash exampleGetHashKey 1
             (exampleAfter exampleHistory) H1).
    simpl. lia.
Defined.

(** ** The further properties on concrete inputs *)

Lemma exampleHistory_reachable :
  reachable 2 exampleHash exampleGetHashKey (exampleAfter exampleHistory).
Proof. exists exampleHistory. vm_compute. reflexivity. Qed.

Lemma refcounts_match_table_witness :
  reachable 2 exampleHash exampleGetHashKey (exampleAfter exampleHistory) /\
  refcount (exampleAfter exampleHistory) (mkConn primary "10.0.0.1:6379")
  = occ (mkConn primary "10.0.0.1:6379") (held (exampleAfter exampleHistory)).
Proof.
  split; [apply exampleHistory_reachable|].
  apply (refcounts_match_table 2 exampleHash exampleGetHashKey).
  apply exampleHistory_reachable.
Defined.

Lemma pooled_iff_held_witness :
  reachable 2 exampleHash exampleGetHashKey (exampleAfter exampleHistory) /\
  (is_Some (pool_of primary (exampleAfter exampleHistory) !! "10.0.0.2:6379"%string) <->
   exists (i : nat) x, slots (exampleAfter exampleHistory) !! i = Some x /\
                       In (mkConn primary "10.0.0.2:6379") (slotConns x)).
Proof.
  split; [apply exampleHistory_reachable|].
  apply (pooled_iff_held 2 exampleHash exampleGetHashKey).
  apply exampleHistory_reachable.
Defined.

Lemma Close_empties_pools_witness :
  reachable 2 exampleHash exampleGetHashKey (exampleAfter exampleHistory) /\
  exists s', Close (exampleAfter exampleHistory) = Done tt s' /\
             pool_primary s' = ∅ /\ pool_replica s' = ∅.
Proof.
  split; [apply exampleHistory_reachable|].
  apply (Close_empties_pools 2 exampleHash exampleGetHashKey).
  apply exampleHistory_reachable.
Defined.

Lemma pools_determined_by_table_witness :
  reachable 2 exampleHash exampleGetHashKey (exampleAfter exampleHistory) /\
  reachable 2 exampleHash exampleGetHashKey
    (exampleAfter (OpFillSlot exampleMigrating :: exampleHistory)) /\
  slots (exampleAfter exampleHistory)
  = slots (exampleAfter (OpFillSlot exampleMigrating :: exampleHistory)) /\
  pool_primary (exampleAfter exampleHistory)
  = pool_primary (exampleAfter (OpFillSlot exampleMigrating :: exampleHistory)) /\
  pool_replica (exampleAfter exampleHistory)
  = pool_replica (exampleAfter (OpFillSlot exampleMigrating :: exampleHistory)).
Proof.
  assert (H1 : reachable 2 exampleHash exampleGetHashKey (exampleAfter exampleHistory))
    by apply exampleHistory_reachable.
  assert (H2 : reachable 2 exampleHash exampleGetHashKey
                 (exampleAfter (OpFillSlot exampleMigrating :: exampleHistory))).
  { exists (OpFillSlot exampleMigrating :: exampleHistory). vm_compute. reflexivity. }
  assert (H3 : slots (exampleAfter exampleHistory)
               = slots (exampleAfter (OpFillSlot exampleMigrating :: exampleHistory)))
    by (vm_compute; reflexivity).
  repeat (split; [assumption|]).
  exact (pools_determined_by_table 2 exampleHash exampleGetHashKey _ _ H1 H2 H3).
Defined.

Lemma SwitchMasters_applies_mapping_witness :
  reachable 2 exampleHash exampleGetHashKey (exampleAfter exampleHistory) /\
  closed (exampleAfter exampleHistory) = false /\
  exists s', SwitchMasters exampleMasters (exampleAfter exampleHistory) = Done None s' /\
    exists v, GetSlot 2 0 s' = Done (Some v) s' /\
      (master exampleMasters (models.BackendAddrGroupId v) = ""
       \/ models.BackendAddr v = master exampleMasters (models.BackendAddrGroupId v)).
Proof.
  assert (H1 : reachable 2 exampleHash exampleGetHashKey (exampleAfter exampleHistory))
    by apply exampleHistory_reachable.
  assert (H2 : closed (exampleAfter exampleHistory) = false) by reflexivity.
  repeat (split; [assumption|]).
  destruct (SwitchMasters_applies_mapping 2 exampleHash exampleGetHashKey
              exampleMasters _ H1 H2) as (s' & E & Hall).
  exists s'. split; [assumption|].
  destruct (Hall 0) as (v & Ev & Hb & _); [simpl; lia|].
  exists v. auto.
Defined.

Lemma SwitchMasters_per_slot_witness :
  reachable 2 exampleHash exampleGetHashKey (NewRouter 2) /\
  closed (NewRouter 2) = false /\
  slots (NewRouter 2) !! 0%nat = Some (emptySlot 0) /\
  exists s' x',
    SwitchMasters {[ 0 := "10.0.0.3:6379"%string ]} (NewRouter 2) = Done None s' /\
    slots s' !! 0%nat = Some x' /\ switched x' = true /\
    Addr (bc (backend x')) = "10.0.0.3:6379".
Proof.
  assert (H1 : reachable 2 exampleHash exampleGetHashKey (NewRouter 2))
    by apply NewRouter_reachable.
  assert (H2 : closed (NewRouter 2) = false) by reflexivity.
  assert (H3 : slots (NewRouter 2) !! 0%nat = Some (emptySlot 0)) by reflexivity.
  repeat (split; [assumption|]).
  destruct (SwitchMasters_per_slot 2 exampleHash exampleGetHashKey
              {[ 0 := "10.0.0.3:6379"%string ]} (NewRouter 2) 0 (emptySlot 0) H1 H2 H3)
    as (s' & x' & E & Hx' & Hup).
  exists s', x'. split; [assumption|]. split; [assumption|].
  destruct Hup as (Hsw & _ & _ & Hb & _). split; [assumption|]. exact Hb.
Defined.

Lemma HasSwitched_after_SwitchMasters_witness :
  reachable 2 exampleHash exampleGetHashKey (exampleAfter exampleHistory) /\
  closed (exampleAfter exampleHistory) = false /\
  exists s', SwitchMasters exampleMasters (exampleAfter exampleHistory) = Done None s' /\
             HasSwitched s' = Done true s'.
Proof.
  assert (H1 : reachable 2 exampleHash exampleGetHashKey (exampleAfter exampleHistory))
    by apply exampleHistory_reachable.
  assert (H2 : closed (exampleAfter exampleHistory) = false) by reflexivity.
  repeat (split; [assumption|]).
  destruct (HasSwitched_after_SwitchMasters 2 exampleHash exampleGetHashKey
              exampleMasters _ H1 H2) as (s' & E & Hh).
  exists s'. split; [assumption|]. exact Hh.
Defined.

Lemma FillSlot_touches_one_slot_witness :
  reachable 2 exampleHash exampleGetHashKey (exampleAfter exampleHistory) /\
  closed (exampleAfter exampleHistory) = false /\
  0 <= models.Id (exampleBackend 0) < Z.of_nat 2 /\
  exists s' v,
    FillSlot 2 (exampleBackend 0) (exampleAfter exampleHistory) = Done None s' /\
    GetSlot 2 1 (exampleAfter exampleHistory) = Done v (exampleAfter exampleHistory) /\
    GetSlot 2 1 s' = Done v s'.
Proof.
  assert (H1 : reachable 2 exampleHash exampleGetHashKey (exampleAfter exampleHistory))
    by apply exampleHistory_reachable.
  assert (H2 : closed (exampleAfter exampleHistory) = false) by reflexivity.
  assert (H3 : 0 <= models.Id (exampleBackend 0) < Z.of_nat 2) by (simpl; lia).
  repeat (split; [assumption|]).
  destruct (FillSlot_touches_one_slot 2 exampleHash exampleGetHashKey
              (exampleBackend 0) _ H1 H2 H3) as (s' & E & _ & _ & Hall).
  destruct (Hall 1) as (v & Ev & Ev'); [simpl; lia|].
  exists s', v. auto.
Defined.

Lemma FillSlot_last_write_wins_witness :
  reachable 2 exampleHash exampleGetHashKey (NewRouter 2) /\
  closed (NewRouter 2) = false /\
  0 <= models.Id exampleMigrating < Z.of_nat 2 /\
  models.Id (exampleBackend 1) = models.Id exampleMigrating /\
  exists s1 s2 t,
    FillSlot 2 exampleMigrating (NewRouter 2) = Done None s1 /\
    FillSlot 2 (exampleBackend 1) s1 = Done None s2 /\
    FillSlot 2 (exampleBackend 1) (NewRouter 2) = Done None t /\
    slots s2 = slots t /\ pool_primary s2 = pool_primary t /\
    pool_replica s2 = pool_replica t.
Proof.
  assert (H1 : reachable 2 exampleHash exampleGetHashKey (NewRouter 2))
    by apply NewRouter_reachable.
  assert (H2 : closed (NewRouter 2) = false) by reflexivity.
  assert (H3 : 0 <= models.Id exampleMigrating < Z.of_nat 2) by (simpl; lia).
  assert (H4 : models.Id (exampleBackend 1) = models.Id exampleMigrating) by reflexivity.
  repeat (split; [assumption|]).
  destruct (FillSlot_last_write_wins 2 exampleHash exampleGetHashKey
              exampleMigrating (exampleBackend 1) (NewRouter 2) H1 H2 H3 H4)
    as (s1 & s2 & t & E1 & E2 & E3 & Hs & _ & _ & Hp & Hq).
  exists s1, s2, t. auto 10.
Defined.

Lemma GetSlots_agrees_with_GetSlot_witness :
  reachable 2 exampleHash exampleGetHashKey (exampleAfter exampleHistory) /\
  exists out,
    GetSlots 2 (exampleAfter exampleHistory) = Done out (exampleAfter exampleHistory) /\
    length out = 2%nat.
Proof.
  assert (H1 : reachable 2 exampleHash exampleGetHashKey (exampleAfter exampleHistory))
    by apply exampleHistory_reachable.
  split; [assumption|].
  destruct (GetSlots_agrees_with_GetSlot 2 exampleHash exampleGetHashKey _ H1)
    as (out & E & Hl & _).
  exists out. auto.
Defined.

Lemma GetGroupIds_reports_live_groups_witness :
  reachable 2 exampleHash exampleGetHashKey (exampleAfter exampleHistory) /\
  exists groups,
    GetGroupIds (exampleAfter exampleHistory) = Done groups (exampleAfter exampleHistory) /\
    groups !! 0 <> Some false.
Proof.
  assert (H1 : reachable 2 exampleHash exampleGetHashKey (exampleAfter exampleHistory))
    by apply exampleHistory_reachable.
  split; [assumption|].
  destruct (GetGroupIds_reports_live_groups 2 exampleHash exampleGetHashKey _ H1)
    as (groups & E & Hall).
  exists groups. split; [assumption|]. exact (proj1 (Hall 0)).
Defined.

Lemma lifecycle_by_history_witness :
  run 2 exampleHash exampleGetHashKey [OpStart; OpClose; OpStart] (NewRouter 2)
  = Done tt (exampleAfter [OpStart; OpClose; OpStart]) /\
  closed (exampleAfter [OpStart; OpClose; OpStart]) = true /\
  isOnline (exampleAfter [OpStart; OpClose; OpStart]) = false.
Proof.
  assert (H1 : run 2 exampleHash exampleGetHashKey [OpStart; OpClose; OpStart]
                 (NewRouter 2)
               = Done tt (exampleAfter [OpStart; OpClose; OpStart]))
    by (vm_compute; reflexivity).
  split; [assumption|].
  exact (lifecycle_by_history 2 exampleHash exampleGetHashKey _ _ H1).
Defined.

Lemma GetSlot_snapshot_invariants_witness :
  reachable 2 exampleHash exampleGetHashKey (exampleAfter exampleHistory) /\
  0 <= 1 < Z.of_nat 2 /\
  exists v, GetSlot 2 1 (exampleAfter exampleHistory)
            = Done (Some v) (exampleAfter exampleHistory) /\
            models.Id v = 1 /\
            Forall (fun g => g <> []) (models.ReplicaGroups v).
Proof.
  assert (H1 : reachable 2 exampleHash exampleGetHashKey (exampleAfter exampleHistory))
    by apply exampleHistory_reachable.
  assert (H2 : 0 <= 1 < Z.of_nat 2) by (simpl; lia).
  repeat (split; [assumption|]).
  destruct (GetSlot_snapshot_invariants 2 exampleHash exampleGetHashKey 1 _ H1 H2)
    as (v & E & Hid & _ & _ & Hg).
  exists v. auto.
Defined.

Lemma dispatchSlot_by_id_witness :
  (2 < 0 \/ Z.of_nat 2 <= 2) /\
  dispatchSlot 2 exampleMGet 2 (NewRouter 2)
  = Done (Some ErrInvalidSlotId) (NewRouter 2).
Proof.
  assert (H1 : 2 < 0 \/ Z.of_nat 2 <= 2) by (right; simpl; lia).
  split; [assumption|].
  exact (proj1 (dispatchSlot_by_id 2 exampleHash exampleGetHashKey
                  exampleMGet 2 (NewRouter 2)) H1).
Defined.

Lemma reconfiguration_pushes_nothing_witness :
  (forall r, OpFillSlot (exampleBackend 0) <> OpDispatch r) /\
  run_op 2 exampleHash exampleGetHashKey (OpFillSlot (exampleBackend 0)) (NewRouter 2)
  = Done tt (exampleAfter [OpFillSlot (exampleBackend 0)]) /\
  pushes (events (exampleAfter [OpFillSlot (exampleBackend 0)]))
  = pushes (events (NewRouter 2)).
Proof.
  assert (H1 : forall r, OpFillSlot (exampleBackend 0) <> OpDispatch r)
    by (intros r; discriminate).
  assert (H2 : run_op 2 exampleHash exampleGetHashKey (OpFillSlot (exampleBackend 0))
                 (NewRouter 2)
               = Done tt (exampleAfter [OpFillSlot (exampleBackend 0)]))
    by (vm_compute; reflexivity).
  repeat (split; [assumption|]).
  exact (reconfiguration_pushes_nothing 2 exampleHash exampleGetHashKey _ _ _ H1 H2).
Defined.

Lemma FillSlot_releases_then_retains_witness :
  reachable 2 exampleHash exampleGetHashKey (exampleAfter exampleHistory) /\
  closed (exampleAfter exampleHistory) = false /\
  0 <= models.Id (exampleBackend 1) < Z.of_nat 2 /\
  exists x x' s',
    slots (exampleAfter exampleHistory) !! 1%nat = Some x /\
    FillSlot 2 (exampleBackend 1) (exampleAfter exampleHistory) = Done None s' /\
    events s' = events (exampleAfter exampleHistory)
                ++ map evRelease (slotConns x) ++ map evRetain (slotConns x').
Proof.
  assert (H1 : reachable 2 exampleHash exampleGetHashKey (exampleAfter exampleHistory))
    by apply exampleHistory_reachable.
  assert (H2 : closed (exampleAfter exampleHistory) = false) by reflexivity.
  assert (H3 : 0 <= models.Id (exampleBackend 1) < Z.of_nat 2) by (simpl; lia).
  repeat (split; [assumption|]).
  destruct (FillSlot_releases_then_retains 2 exampleHash exampleGetHashKey
              (exampleBackend 1) _ H1 H2 H3) as (x & x' & s' & Hx & E & _ & Hev).
  exists x, x', s'. auto.
Defined.

Lemma Close_releases_what_is_held_witness :
  reachable 2 exampleHash exampleGetHashKey (exampleAfter exampleHistory) /\
  exists s', Close (exampleAfter exampleHistory) = Done tt s' /\
             events s' = events (exampleAfter exampleHistory)
                         ++ map evRelease (held (exampleAfter exampleHistory)).
Proof.
  split; [apply exampleHistory_reachable|].
  apply (Close_releases_what_is_held 2 exampleHash exampleGetHashKey).
  apply exampleHistory_reachable.
Defined.
